(** * patacrep.songs: song management

    A shallow embedding of [patacrep/songs/__init__.py]: the cache location
    helper [cached_name], the [DataSubpath] pair, the cache-validated
    construction of a [Song], its render dispatch and file search, and the
    title helper [unprefixed_title].

    Python strings are modelled as [string] (one [ascii] per character, so
    the development covers 8-bit text), byte strings as [list byte], and
    Python objects that travel through the cache as the small universe
    [pyval]. *)

From Stdlib Require Import ZArith Ascii String List Bool Lia.
From stdpp Require Import base option list gmap strings.

Import ListNotations.
Set Warnings "-register-all".
Local Open Scope string_scope.
Local Open Scope list_scope.
Local Open Scope Z_scope.

(** ** posixpath

    The pure string functions of Python's [posixpath] that the module
    calls, written after their CPython definitions. *)
Module posixpath.

Definition is_sep (c : ascii) : bool := Ascii.eqb c "/".

(** [s.startswith('/')] *)
Definition isabs (s : string) : bool :=
  match s with
  | String c _ => is_sep c
  | EmptyString => false
  end.

(** [s.endswith('/')] *)
Fixpoint endswith_sep (s : string) : bool :=
  match s with
  | EmptyString => false
  | String c EmptyString => is_sep c
  | String _ s' => endswith_sep s'
  end.

(** One round of the loop of [posixpath.join(a, *p)]. *)
Definition join (a b : string) : string :=
  if isabs b then b
  else if (String.eqb a "" || endswith_sep a)%bool then a +:+ b
  else a +:+ "/" +:+ b.

(** [posixpath.join(a, b, c)] *)
Definition join3 (a b c : string) : string := join (join a b) c.

(** [p[:p.rfind('/') + 1]] *)
Fixpoint head_to_last_sep (p : string) : string :=
  match p with
  | EmptyString => ""
  | String c p' =>
      match head_to_last_sep p' with
      | EmptyString => if is_sep c then "/" else ""
      | h => String c h
      end
  end.

(** [head != '/' * len(head)] is the negation of this. *)
Fixpoint all_sep (s : string) : bool :=
  match s with
  | EmptyString => true
  | String c s' => (is_sep c && all_sep s')%bool
  end.

(** [head.rstrip('/')] *)
Fixpoint rstrip_sep (s : string) : string :=
  match s with
  | EmptyString => ""
  | String c s' =>
      match rstrip_sep s' with
      | EmptyString => if is_sep c then "" else String c ""
      | r => String c r
      end
  end.

Definition dirname (p : string) : string :=
  let head := head_to_last_sep p in
  if (negb (String.eqb head "") && negb (all_sep head))%bool
  then rstrip_sep head
  else head.

(** [path.split('/')]: the current component is accumulated in [cur]. *)
Fixpoint split_sep (cur : string) (path : string) : list string :=
  match path with
  | EmptyString => [cur]
  | String c path' =>
      if is_sep c then cur :: split_sep "" path'
      else split_sep (cur +:+ String c "") path'
  end.

(** The loop of [normpath] over the components; [new_comps] is kept
    reversed, its head being [new_comps[-1]]. *)
Fixpoint norm_comps (initial_slashes : nat) (new_comps : list string)
         (comps : list string) : list string :=
  match comps with
  | [] => rev new_comps
  | comp :: comps' =>
      if (String.eqb comp "" || String.eqb comp ".")%bool
      then norm_comps initial_slashes new_comps comps'
      else if (negb (String.eqb comp "..")
               || (Nat.eqb initial_slashes 0 && match new_comps with [] => true | _ => false end)
               || match new_comps with last :: _ => String.eqb last ".." | [] => false end)%bool
      then norm_comps initial_slashes (comp :: new_comps) comps'
      else norm_comps initial_slashes (List.tail new_comps) comps'
  end.

(** ['/'.join(comps)] *)
Fixpoint sep_join (comps : list string) : string :=
  match comps with
  | [] => ""
  | [c] => c
  | c :: comps' => c +:+ "/" +:+ sep_join comps'
  end.

Definition startswith2 (s : string) : bool :=
  match s with
  | String a (String b _) => (is_sep a && is_sep b)%bool
  | _ => false
  end.

Definition startswith3 (s : string) : bool :=
  match s with
  | String a (String b (String c _)) => (is_sep a && is_sep b && is_sep c)%bool
  | _ => false
  end.

Fixpoint seps (n : nat) : string :=
  match n with
  | O => ""
  | S n' => String "/" (seps n')
  end.

Definition normpath (path : string) : string :=
  if String.eqb path "" then "."
  else
    let initial_slashes :=
      if isabs path
      then (if (startswith2 path && negb (startswith3 path))%bool then 2%nat else 1%nat)
      else 0%nat in
    let comps := norm_comps initial_slashes [] (split_sep "" path) in
    let path' := seps initial_slashes +:+ sep_join comps in
    if String.eqb path' "" then "." else path'.

(** [abspath], with the result of [os.getcwd()] as [cwd]. *)
Definition abspath (cwd path : string) : string :=
  normpath (if isabs path then path else join cwd path).

End posixpath.


(** ** re

    The fragment of Python's [re] that [unprefixed_title] uses: a pattern
    made of the anchor [^], a first group holding the prefix, a word
    boundary, a run of white space, a second group holding a run of any
    characters but the line feed, and the anchor [$]; compiled with
    [re.LOCALE] and matched with [Pattern.match].  Characters are
    classified as in the C locale: a word character is an ASCII letter,
    digit or underscore.  The matcher is a backtracking one, greedy
    repetitions first, as [sre] is. *)
Module re.

Inductive category := CATEGORY_SPACE | ANY.

Inductive node :=
| AT_BEGINNING
| AT_END
| AT_BOUNDARY
| LITERAL (c : ascii)
| MAX_REPEAT (cat : category)
| SUBPATTERN (group : nat) (body : list node).

Definition is_digit (c : ascii) : bool :=
  let n := nat_of_ascii c in ((48 <=? n) && (n <=? 57))%nat.

Definition is_alpha (c : ascii) : bool :=
  let n := nat_of_ascii c in
  (((65 <=? n) && (n <=? 90)) || ((97 <=? n) && (n <=? 122)))%nat.

(** [\w] under [re.LOCALE] in the C locale: [isalnum(ch) || ch == '_'] *)
Definition is_word (c : ascii) : bool :=
  (is_alpha c || is_digit c || Ascii.eqb c "_")%bool.

(** [\s]: space, [\t], [\n], [\v], [\f], [\r] *)
Definition is_space (c : ascii) : bool :=
  let n := nat_of_ascii c in ((n =? 32) || ((9 <=? n) && (n <=? 13)))%nat.

Definition is_linebreak (c : ascii) : bool := Ascii.eqb c "010".

Definition in_category (cat : category) (c : ascii) : bool :=
  match cat with
  | CATEGORY_SPACE => is_space c
  | ANY => negb (is_linebreak c)
  end.

(** The position in the subject: the characters before it, nearest first,
    and the characters after it; with the groups closed so far. *)
Record state := State {
  before : list ascii;
  after : list ascii;
  groups : gmap nat string;
}.

Definition word_at (cs : list ascii) : bool :=
  match cs with
  | c :: _ => is_word c
  | [] => false
  end.

(** [\b]: exactly one of the two neighbours is a word character. *)
Definition at_boundary (st : state) : bool :=
  xorb (word_at (before st)) (word_at (after st)).

(** [$] without [re.MULTILINE]: at the end, or before a final line break. *)
Definition at_end_of (aft : list ascii) : bool :=
  match aft with
  | [] => true
  | [c] => is_linebreak c
  | _ => false
  end.

Definition at_end (st : state) : bool := at_end_of (after st).

Definition at_beginning (st : state) : bool :=
  match before st with
  | [] => true
  | _ => false
  end.

Section Matcher.
Context {R : Type}.

(** Greedy [cat*]: take one more character when possible, and give it back
    when the rest of the pattern then fails. *)
Fixpoint max_repeat (cat : category) (bef aft : list ascii) (gs : gmap nat string)
         (k : state -> option R) : option R :=
  match aft with
  | c :: aft' =>
      if in_category cat c then
        match max_repeat cat (c :: bef) aft' gs k with
        | Some r => Some r
        | None => k (State bef aft gs)
        end
      else k (State bef aft gs)
  | [] => k (State bef aft gs)
  end.

(** The text between two positions of one subject. *)
Definition consumed (st st' : state) : string :=
  string_of_list_ascii
    (rev (firstn (length (before st') - length (before st)) (before st'))).

Fixpoint match_node (n : node) (st : state) (k : state -> option R) {struct n}
  : option R :=
  match n with
  | AT_BEGINNING => if at_beginning st then k st else None
  | AT_END => if at_end st then k st else None
  | AT_BOUNDARY => if at_boundary st then k st else None
  | LITERAL c =>
      match after st with
      | c' :: aft' =>
          if Ascii.eqb c c' then k (State (c' :: before st) aft' (groups st)) else None
      | [] => None
      end
  | MAX_REPEAT cat => max_repeat cat (before st) (after st) (groups st) k
  | SUBPATTERN g body =>
      (fix match_seq (ns : list node) (st0 : state) (k0 : state -> option R) : option R :=
         match ns with
         | [] => k0 st0
         | n' :: ns' => match_node n' st0 (fun st1 => match_seq ns' st1 k0)
         end)
        body st
        (fun st' => k (State (before st') (after st') (<[g := consumed st st']> (groups st'))))
  end.

Fixpoint match_nodes (ns : list node) (st : state) (k : state -> option R) : option R :=
  match ns with
  | [] => k st
  | n :: ns' => match_node n st (fun st' => match_nodes ns' st' k)
  end.

End Matcher.

(** [Pattern.match(string)]: the groups of the first successful path. *)
Definition match_ (pattern : list node) (subject : string) : option (gmap nat string) :=
  match_nodes pattern (State [] (list_ascii_of_string subject) ∅) (fun st => Some (groups st)).

(** The characters that [sre_parse] does not read as themselves. *)
Definition is_special (c : ascii) : bool :=
  existsb (Ascii.eqb c) (list_ascii_of_string ".\[{()*+?^$|").

(** A prefix that, as a pattern, matches itself and nothing else. *)
Definition literal (prefix : string) : bool :=
  forallb (fun c => negb (is_special c)) (list_ascii_of_string prefix).

(** [re.compile] of the pattern of [unprefixed_title] for [prefix], with
    [re.LOCALE].  The prefix is pasted into the pattern as it is, so [re]
    reads it as a pattern; this model compiles the prefixes made of literal
    characters and answers [None] for the others, which are outside the
    modelled fragment. *)
Definition compile_prefix (prefix : string) : option (list node) :=
  if literal prefix then
    Some [ AT_BEGINNING;
           SUBPATTERN 1 (map LITERAL (list_ascii_of_string prefix));
           AT_BOUNDARY;
           MAX_REPEAT CATEGORY_SPACE;
           SUBPATTERN 2 [MAX_REPEAT ANY];
           AT_END ]
  else None.

(** [match.group(n)] *)
Definition group (m : gmap nat string) (n : nat) : string := default "" (m !! n).

End re.

(** ** unprefixed_title *)

(** Remove the first prefix of the list in the beginning of title (if
    any).  [None] only when a prefix that had to be compiled is outside the
    fragment of [re.compile_prefix]. *)
Fixpoint unprefixed_title (title : string) (prefixes : list string) : option string :=
  match prefixes with
  | [] => Some title
  | prefix :: prefixes' =>
      match re.compile_prefix prefix with
      | None => None
      | Some pattern =>
          match re.match_ pattern title with
          | Some m => Some (re.group m 2)
          | None => unprefixed_title title prefixes'
          end
      end
  end.

(** ** Values, exceptions and the operating system *)

Abbreviation bytes := (list Byte.byte).

(** The Python objects that are stored in a song and pickled: [None],
    integers, strings, lists, and dictionaries with string keys. *)
Inductive pyval :=
| PNone
| PInt (n : Z)
| PStr (s : string)
| PList (l : list pyval)
| PDict (d : gmap string pyval).

(** [v == s] for a string [s], and [v == n] for an integer [n]. *)
Definition py_eq_str (v : pyval) (s : string) : bool :=
  match v with
  | PStr s' => String.eqb s' s
  | _ => false
  end.

Definition py_eq_int (v : pyval) (n : Z) : bool :=
  match v with
  | PInt n' => Z.eqb n' n
  | _ => false
  end.

(** The exceptions that the module meets.  [Unmodelled] stands for what
    [unprefixed_title] does on a prefix that [re.compile_prefix] leaves
    out; nothing catches it. *)
Inductive exn :=
| OSError (errno : Z)
| KeyError (key : string)
| TypeError
| AttributeError (name : string)
| NotImplementedError
| PickleError
| Exception (msg : string)
| Unmodelled.

Inductive result (A : Type) :=
| Ok (a : A)
| Raised (e : exn).
Arguments Ok {A} a.
Arguments Raised {A} e.

Module errno.
Definition ENOENT : Z := 2.
Definition EACCES : Z := 13.
Definition EEXIST : Z := 17.
Definition ENOTDIR : Z := 20.
Definition EISDIR : Z := 21.
End errno.

(** [cached[key]] *)
Definition getitem (cached : pyval) (key : string) : result pyval :=
  match cached with
  | PDict d =>
      match d !! key with
      | Some v => Ok v
      | None => Raised (KeyError key)
      end
  | _ => Raised TypeError
  end.

(** The file system the module runs on, behind the calls it makes:
    [os.getcwd], [os.path.exists], [os.path.isdir], [os.path.isfile],
    [open(path, 'rb').read()], [open(path, 'wb')] followed by a write of
    the whole content, and [os.makedirs], which answers the [errno] of the
    [OSError] it raises, if any. *)
Class OS := {
  fs : Type;
  getcwd : string;
  path_exists : fs -> string -> bool;
  path_isdir : fs -> string -> bool;
  path_isfile : fs -> string -> bool;
  read_file : fs -> string -> result bytes;
  write_file : fs -> string -> bytes -> result fs;
  makedirs : fs -> string -> fs * option Z;
}.

(** What the module relies on from a file system: a directory that
    [os.makedirs] made exists; on an existing directory [os.makedirs]
    raises [EEXIST] and changes nothing; a file that was written exists and
    reads back; writing a file makes and removes no directory. *)
Class OSLaws (os : OS) : Prop := {
  makedirs_isdir : forall (f f' : fs) d,
    makedirs f d = (f', None) -> path_isdir f' d = true;
  makedirs_existing : forall (f : fs) d,
    path_isdir f d = true -> makedirs f d = (f, Some errno.EEXIST);
  write_then_read : forall (f f' : fs) p b,
    write_file f p b = Ok f' -> path_exists f' p = true /\ read_file f' p = Ok b;
  write_keeps_dirs : forall (f f' : fs) p b d,
    write_file f p b = Ok f' -> path_isdir f' d = path_isdir f d;
}.

(** [hashlib.md5(data).hexdigest()], [pickle.dumps] and [pickle.loads]. *)
Class Libs := {
  md5_hexdigest : bytes -> string;
  pickle_dumps : pyval -> result bytes;
  pickle_loads : bytes -> result pyval;
}.

(** What the module does to the outside, in order. *)
Inductive event :=
| EvRead (path : string)
| EvWrite (path : string)
| EvMakedirs (path : string)
| EvParse (fullpath : string)
| EvWarning (msg : string).

Record World `{OS} := mkWorld {
  w_fs : fs;
  w_events : list event;
}.

(** Computations that read and change the world and may raise. *)
Definition M `{OS} (A : Type) : Type := World -> World * result A.

Definition ret `{OS} {A} (a : A) : M A := fun w => (w, Ok a).

Definition raise `{OS} {A} (e : exn) : M A := fun w => (w, Raised e).

Definition bind `{OS} {A B} (m : M A) (k : A -> M B) : M B :=
  fun w =>
    match m w with
    | (w', Ok a) => k a w'
    | (w', Raised e) => (w', Raised e)
    end.

Notation "x <- m ;; k" := (bind m (fun x => k))
  (at level 100, m at next level, right associativity).
Notation "m ;;; k" := (bind m (fun _ => k))
  (at level 100, right associativity).

(** [try: m except: handler] with a bare [except]. *)
Definition try_except `{OS} {A} (m : M A) (handler : M A) : M A :=
  fun w =>
    match m w with
    | (w', Ok a) => (w', Ok a)
    | (w', Raised _) => handler w'
    end.

Definition lift `{OS} {A} (r : result A) : M A := fun w => (w, r).

Definition emit `{OS} (e : event) : M unit :=
  fun w => (mkWorld _ (w_fs w) (w_events w ++ [e]), Ok tt).

Definition observe `{OS} {A} (q : fs -> A) : M A := fun w => (w, Ok (q (w_fs w))).

(** [open(path, 'rb').read()] *)
Definition open_read `{OS} (path : string) : M bytes :=
  emit (EvRead path) ;;;
  fun w => (w, read_file (w_fs w) path).

(** [open(path, 'wb')]: the file is created, or emptied. *)
Definition open_wb `{OS} (path : string) : M unit :=
  emit (EvWrite path) ;;;
  fun w =>
    match write_file (w_fs w) path [] with
    | Ok f' => (mkWorld _ f' (w_events w), Ok tt)
    | Raised e => (w, Raised e)
    end.

(** The write of [content] to the file opened at [path]. *)
Definition file_write `{OS} (path : string) (content : bytes) : M unit :=
  fun w =>
    match write_file (w_fs w) path content with
    | Ok f' => (mkWorld _ f' (w_events w), Ok tt)
    | Raised e => (w, Raised e)
    end.

(** [os.makedirs(directory)], answering the [errno] of its [OSError]. *)
Definition os_makedirs `{OS} (directory : string) : M (option Z) :=
  emit (EvMakedirs directory) ;;;
  fun w =>
    let '(f', error) := makedirs (w_fs w) directory in
    (mkWorld _ f' (w_events w), Ok error).

(** [LOGGER.warning(msg)] *)
Definition warning `{OS} (msg : string) : M unit := emit (EvWarning msg).

(** ** cached_name *)

(** Return the filename of the cache version of the file. *)
Definition cached_name `{OS} (datadir filename : string) : M string :=
  let fullpath := posixpath.abspath getcwd (posixpath.join3 datadir ".cache" filename) in
  let directory := posixpath.dirname fullpath in
  error <- os_makedirs directory ;;
  match error with
  | None => ret fullpath
  | Some errno =>
      if Z.eqb errno errno.EEXIST then
        isdir <- observe (fun f => path_isdir f directory) ;;
        if isdir : bool then ret fullpath else raise (OSError errno)
      else raise (OSError errno)
  end.

(** ** DataSubpath

    A path divided in two path: a datadir, and its subpath. *)
Module DataSubpath.

Record t := mk {
  datadir : string;
  subpath : string;
}.

Definition __init__ (datadir subpath : string) : t :=
  if posixpath.isabs subpath
  then mk "" subpath
  else mk datadir subpath.

Definition __str__ (self : t) : string :=
  posixpath.join (datadir self) (subpath self).

(** Return the full path represented by self. *)
Definition fullpath (self : t) : string :=
  posixpath.join (datadir self) (subpath self).

(** Return a cloned object. *)
Definition clone (self : t) : t := __init__ (datadir self) (subpath self).

(** Join "path" argument to self path.  The object is changed in place
    and returned: the result is the new state of self. *)
Definition join (self : t) (path : string) : t :=
  mk (datadir self) (posixpath.join (subpath self) path).

(** The states an object can be in: built by the constructor, then
    changed by [join]; [clone] builds a new object from one. *)
Inductive reachable : t -> Prop :=
| reach_init datadir subpath : reachable (__init__ datadir subpath)
| reach_join self path : reachable self -> reachable (join self path)
| reach_clone self : reachable self -> reachable (clone self).

(** If the subpath is an absolute path, the datadir is the empty string. *)
Definition invariant (self : t) : Prop :=
  posixpath.isabs (subpath self) = true -> datadir self = "".

End DataSubpath.

(** ** Song *)

(** The entries of [config] that the module reads: [config["encoding"]],
    [config['titleprefixwords']], [config.get("_compiled_authwords")] and
    [config['datadir']]. *)
Record Config := mkConfig {
  cfg_encoding : string;
  cfg_titleprefixwords : list string;
  cfg_compiled_authwords : option pyval;
  cfg_datadir : list string;
}.

(** What [_parse] sets on the song: the raw titles, the languages, the raw
    authors, the metadata and the additional data to cache. *)
Record Parsed := mkParsed {
  p_titles : list string;
  p_languages : pyval;
  p_authors : pyval;
  p_data : pyval;
  p_cached : pyval;
}.

Module Song.

(** Version format of cached song. *)
Definition CACHE_VERSION : Z := 2.

(** List of attributes to cache *)
Definition cached_attributes : list string :=
  [ "titles"; "unprefixed_titles"; "cached"; "data"; "subpath";
    "languages"; "authors"; "_filehash"; "_version" ].

(** A song object: the attributes set once by the constructor, and the
    attributes of [cached_attributes], kept by name in [attrs]. *)
Record t := mk {
  datadir : string;
  fullpath : string;
  encoding : string;
  config : Config;
  attrs : gmap string pyval;
}.

(** What a class of songs for one file format brings: [_parse], and its
    methods, by name.  The song class itself has no attribute whose name
    starts with [render_], so that [hasattr(self, "render_...")] is a
    lookup among these methods. *)
Class Format `{OS} := {
  _parse : fs -> string -> string -> Config -> result Parsed;
  methods : gmap string (t -> pyval -> list pyval -> M pyval);
}.

(** [patacrep.authors.process_listauthors], which is not of this module
    and is taken as it comes: called with the raw authors and the keyword
    arguments of [_compiled_authwords], it returns the authors or raises. *)
Class Authors := {
  process_listauthors : pyval -> pyval -> result pyval;
}.

Section Song.
Context `{os : OS} {libs : Libs} {format : Format} {authors : Authors}.

(** [if datadir:] *)
Definition truthy (datadir : option string) : bool :=
  match datadir with
  | Some d => negb (String.eqb d "")
  | None => false
  end.

(** [for attribute in self.cached_attributes:
       setattr(self, attribute, cached[attribute])] *)
Fixpoint restore (cached : pyval) (attributes : list string) (self : gmap string pyval)
  : result (gmap string pyval) :=
  match attributes with
  | [] => Ok self
  | attribute :: attributes' =>
      match getitem cached attribute with
      | Ok v => restore cached attributes' (<[attribute := v]> self)
      | Raised e => Raised e
      end
  end.

Definition warning_message (fullpath : string) : string :=
  "Could not use cached version of " +:+ fullpath +:+ ".".

(** The body of [try:] in the constructor: [Some] attributes when the
    cached version is used and the constructor returns. *)
Definition use_cached (datadir subpath filehash : string) (self : gmap string pyval)
  : M (option (gmap string pyval)) :=
  name <- cached_name datadir subpath ;;
  content <- open_read name ;;
  cached <- lift (pickle_loads content) ;;
  stored_hash <- lift (getitem cached "_filehash") ;;
  if py_eq_str stored_hash filehash then
    stored_version <- lift (getitem cached "_version") ;;
    if py_eq_int stored_version CACHE_VERSION then
      self' <- lift (restore cached cached_attributes self) ;;
      ret (Some self')
    else ret None
  else ret None.

(** The block under [if datadir:].  The attributes that [restore] set
    before a [KeyError] are not kept: the constructor assigns every name of
    [cached_attributes] again when it goes on to parse. *)
Definition load (datadir subpath fullpath : string)
  : M (gmap string pyval + gmap string pyval) :=
  content <- open_read fullpath ;;
  let filehash := md5_hexdigest content in
  let self := {[ "_filehash" := PStr filehash ]} in
  name <- cached_name datadir subpath ;;
  found <- observe (fun f => path_exists f name) ;;
  if found : bool then
    r <- try_except (use_cached datadir subpath filehash self)
                    (warning (warning_message fullpath) ;;; ret None) ;;
    match r with
    | Some self' => ret (inl self')
    | None => ret (inr self)
    end
  else ret (inr self).

(** [getattr(self, "subpath")] as a string. *)
Definition getattr_str (self : gmap string pyval) (name : string) : result string :=
  match self !! name with
  | Some (PStr s) => Ok s
  | Some _ => Raised TypeError
  | None => Raised (AttributeError name)
  end.

(** [for attribute in self.cached_attributes:
       cached[attribute] = getattr(self, attribute)] *)
Fixpoint snapshot (self : gmap string pyval) (attributes : list string)
         (cached : gmap string pyval) : result (gmap string pyval) :=
  match attributes with
  | [] => Ok cached
  | attribute :: attributes' =>
      match self !! attribute with
      | Some v => snapshot self attributes' (<[attribute := v]> cached)
      | None => Raised (AttributeError attribute)
      end
  end.

(** If relevant, write a dumbed down version of self to the cache. *)
Definition _write_cache (self_datadir : string) (self : gmap string pyval) : M unit :=
  if negb (String.eqb self_datadir "") then
    cached <- lift (snapshot self cached_attributes ∅) ;;
    subpath <- lift (getattr_str self "subpath") ;;
    name <- cached_name self_datadir subpath ;;
    open_wb name ;;;
    content <- lift (pickle_dumps (PDict cached)) ;;
    file_write name content
  else ret tt.

(** [self._parse(config)] *)
Definition parse (fullpath encoding : string) (config : Config) : M Parsed :=
  emit (EvParse fullpath) ;;;
  fun w => (w, _parse (w_fs w) fullpath encoding config).

(** [[unprefixed_title(title, prefixes) for title in titles]] *)
Fixpoint unprefixed_titles (titles prefixes : list string) : option (list string) :=
  match titles with
  | [] => Some []
  | title :: titles' =>
      match unprefixed_title title prefixes with
      | Some u =>
          match unprefixed_titles titles' prefixes with
          | Some us => Some (u :: us)
          | None => None
          end
      | None => None
      end
  end.

Definition str_list (l : list string) : pyval := PList (map PStr l).

(** The constructor from "Data extraction" on: parse, post processing and
    cache management.  [self] holds the attributes set so far. *)
Definition extract (subpath : string) (config : Config) (self_datadir fullpath : string)
           (self : gmap string pyval) : M (gmap string pyval) :=
  let self := <["titles" := PList []]> self in
  let self := <["data" := PDict ∅]> self in
  let self := <["cached" := PNone]> self in
  parsed <- parse fullpath (cfg_encoding config) config ;;
  let self := <["titles" := str_list (p_titles parsed)]> self in
  let self := <["languages" := p_languages parsed]> self in
  let self := <["authors" := p_authors parsed]> self in
  let self := <["data" := p_data parsed]> self in
  let self := <["cached" := p_cached parsed]> self in
  let self := <["subpath" := PStr subpath]> self in
  unprefixed <-
    lift (match unprefixed_titles (p_titles parsed) (cfg_titleprefixwords config) with
          | Some us => Ok us
          | None => Raised Unmodelled
          end) ;;
  let self := <["unprefixed_titles" := str_list unprefixed]> self in
  processed <-
    lift (process_listauthors (p_authors parsed)
            (default (PDict ∅) (cfg_compiled_authwords config))) ;;
  let self := <["authors" := processed]> self in
  let self := <["_version" := PInt CACHE_VERSION]> self in
  _write_cache self_datadir self ;;;
  ret self.

Definition __init__ (subpath : string) (config : Config) (datadir : option string) : M t :=
  let self_datadir := default "" datadir in
  let fullpath := posixpath.join self_datadir subpath in
  let encoding := cfg_encoding config in
  let song := mk self_datadir fullpath encoding config in
  r <- (if truthy datadir
        then load self_datadir subpath fullpath
        else ret (inr ∅)) ;;
  match r with
  | inl self => ret (song self)
  | inr self =>
      self' <- extract subpath config self_datadir fullpath self ;;
      ret (song self')
  end.

(** Return the code rendering this song. *)
Definition render (self : t) (output_format : string) (output : pyval) (args : list pyval)
  : M pyval :=
  let method := "render_" +:+ output_format in
  match methods !! method with
  | Some f => f self output args
  | None => raise NotImplementedError
  end.

(** Return an iterator of existing datadirs (with eventually a subdir) *)
Definition get_datadirs (f : fs) (self : t) (subdir : string) : list string :=
  filter (fun fullpath => path_isdir f fullpath = true)
         (map (fun directory => posixpath.join directory subdir) (cfg_datadir (config self))).

(** The inner loop of [search_file], over the extensions. *)
Fixpoint search_extensions (f : fs) (directory filename : string) (extensions : list string)
  : option string :=
  match extensions with
  | [] => None
  | extension :: extensions' =>
      let fullpath := posixpath.join directory (filename +:+ extension) in
      if path_isfile f fullpath
      then Some (posixpath.abspath getcwd fullpath)
      else search_extensions f directory filename extensions'
  end.

(** The outer loop of [search_file], over the directories. *)
Fixpoint search_directories (f : fs) (filename : string) (extensions directories : list string)
  : option string :=
  match directories with
  | [] => None
  | directory :: directories' =>
      match search_extensions f directory filename extensions with
      | Some found => Some found
      | None => search_directories f filename extensions directories'
      end
  end.

(** Search for a file name.  Returns None if nothing found. *)
Definition search_file (f : fs) (self : t) (filename : string)
           (extensions directories : option (list string)) : option string :=
  let extensions := default [""] extensions in
  let directories := default (cfg_datadir (config self)) directories in
  let songdir := posixpath.dirname (fullpath self) in
  search_directories f filename extensions ([songdir] ++ directories).

(** Search for an image file *)
Definition search_image (f : fs) (self : t) (filename : string) (none_if_not_found : bool)
  : option string :=
  let filepath :=
    search_file f self filename (Some [""; ".jpg"; ".png"]) (Some (get_datadirs f self "img")) in
  if (none_if_not_found || bool_decide (is_Some filepath))%bool then filepath else Some filename.

(** Search for a lilypond file *)
Definition search_partition (f : fs) (self : t) (filename : string) (none_if_not_found : bool)
  : option string :=
  let filepath := search_file f self filename (Some [""; ".ly"]) None in
  if (none_if_not_found || bool_decide (is_Some filepath))%bool then filepath else Some filename.

End Song.
End Song.

(** ** A file system in memory

    An instance of [OS] to run the module on: the entries of the file
    system by normalized absolute path, the root being a directory.  There
    are no links and no permissions. *)
Module MemFS.

Inductive entry :=
| File (content : bytes)
| Dir.

Section MemFS.
Variable cwd : string.

Definition key (path : string) : string := posixpath.abspath cwd path.

Definition lookup_key (m : gmap string entry) (k : string) : option entry :=
  if String.eqb k "/" then Some Dir else m !! k.

Definition exists_ (m : gmap string entry) (path : string) : bool :=
  match lookup_key m (key path) with
  | Some _ => true
  | None => false
  end.

Definition isdir (m : gmap string entry) (path : string) : bool :=
  match lookup_key m (key path) with
  | Some Dir => true
  | _ => false
  end.

Definition isfile (m : gmap string entry) (path : string) : bool :=
  match lookup_key m (key path) with
  | Some (File _) => true
  | _ => false
  end.

Definition read (m : gmap string entry) (path : string) : result bytes :=
  match lookup_key m (key path) with
  | Some (File content) => Ok content
  | Some Dir => Raised (OSError errno.EISDIR)
  | None => Raised (OSError errno.ENOENT)
  end.

(** Writing needs the directory of the file, and no directory in its place. *)
Definition write (m : gmap string entry) (path : string) (content : bytes)
  : result (gmap string entry) :=
  let k := key path in
  match lookup_key m k with
  | Some Dir => Raised (OSError errno.EISDIR)
  | _ =>
      match lookup_key m (posixpath.dirname k) with
      | Some Dir => Ok (<[k := File content]> m)
      | Some (File _) => Raised (OSError errno.ENOTDIR)
      | None => Raised (OSError errno.ENOENT)
      end
  end.

(** The directories above [k], nearest first. *)
Fixpoint ancestors (fuel : nat) (k : string) : list string :=
  match fuel with
  | O => []
  | S fuel' =>
      let d := posixpath.dirname k in
      if (String.eqb d k || String.eqb d "")%bool then []
      else d :: ancestors fuel' d
  end.

(** Create the missing directories of [ks]; [None] when one is a file. *)
Fixpoint create (m : gmap string entry) (ks : list string) : option (gmap string entry) :=
  match ks with
  | [] => Some m
  | k :: ks' =>
      match lookup_key m k with
      | Some Dir => create m ks'
      | Some (File _) => None
      | None => create (<[k := Dir]> m) ks'
      end
  end.

Definition mkdirs (m : gmap string entry) (path : string) : gmap string entry * option Z :=
  let k := key path in
  match lookup_key m k with
  | Some _ => (m, Some errno.EEXIST)
  | None =>
      match create m (ancestors (String.length k) k) with
      | Some m' => (<[k := Dir]> m', None)
      | None => (m, Some errno.ENOTDIR)
      end
  end.

Definition os : OS := {|
  fs := gmap string entry;
  getcwd := cwd;
  path_exists := exists_;
  path_isdir := isdir;
  path_isfile := isfile;
  read_file := read;
  write_file := write;
  makedirs := mkdirs;
|}.

End MemFS.
End MemFS.

(** ** Libraries and a song format to run examples with *)
Module Examples.

Fixpoint unary (n : nat) : bytes :=
  match n with
  | O => [Byte.x00]
  | S n' => Byte.x01 :: unary n'
  end.

Definition dump_str (s : string) : bytes :=
  unary (String.length s) ++ list_byte_of_string s.

(** A serialization of [pyval], standing for [pickle.dumps]. *)
Fixpoint dump (v : pyval) : bytes :=
  match v with
  | PNone => [Byte.x4e]
  | PInt n => Byte.x49 :: (if Z.ltb n 0 then Byte.x2d else Byte.x2b) :: unary (Z.abs_nat n)
  | PStr s => Byte.x53 :: dump_str s
  | PList l => Byte.x4c :: unary (length l) ++ flat_map dump l
  | PDict d =>
      Byte.x44 :: unary (size d)
        ++ map_fold (fun k v' acc => dump_str k ++ dump v' ++ acc) [] d
  end.

Fixpoint read_unary (bs : bytes) : option (nat * bytes) :=
  match bs with
  | Byte.x00 :: bs' => Some (O, bs')
  | Byte.x01 :: bs' =>
      match read_unary bs' with
      | Some (n, rest) => Some (S n, rest)
      | None => None
      end
  | _ => None
  end.

Definition read_str (bs : bytes) : option (string * bytes) :=
  match read_unary bs with
  | Some (n, rest) =>
      if (n <=? length rest)%nat
      then Some (string_of_list_byte (firstn n rest), skipn n rest)
      else None
  | None => None
  end.

(** Read [n] things with [one]. *)
Fixpoint read_many {A} (one : bytes -> option (A * bytes)) (n : nat) (bs : bytes)
  : option (list A * bytes) :=
  match n with
  | O => Some ([], bs)
  | S n' =>
      match one bs with
      | Some (a, rest) =>
          match read_many one n' rest with
          | Some (l, rest') => Some (a :: l, rest')
          | None => None
          end
      | None => None
      end
  end.

Fixpoint undump (fuel : nat) (bs : bytes) : option (pyval * bytes) :=
  match fuel with
  | O => None
  | S fuel' =>
      match bs with
      | Byte.x4e :: rest => Some (PNone, rest)
      | Byte.x49 :: sign :: rest =>
          match read_unary rest with
          | Some (n, rest') =>
              Some (PInt (if Byte.eqb sign Byte.x2d then - Z.of_nat n else Z.of_nat n), rest')
          | None => None
          end
      | Byte.x53 :: rest =>
          match read_str rest with
          | Some (s, rest') => Some (PStr s, rest')
          | None => None
          end
      | Byte.x4c :: rest =>
          match read_unary rest with
          | Some (n, rest') =>
              match read_many (undump fuel') n rest' with
              | Some (l, rest'') => Some (PList l, rest'')
              | None => None
              end
          | None => None
          end
      | Byte.x44 :: rest =>
          match read_unary rest with
          | Some (n, rest') =>
              match read_many
                      (fun bs0 =>
                         match read_str bs0 with
                         | Some (k, bs1) =>
                             match undump fuel' bs1 with
                             | Some (v, bs2) => Some ((k, v), bs2)
                             | None => None
                             end
                         | None => None
                         end) n rest' with
              | Some (l, rest'') => Some (PDict (list_to_map l), rest'')
              | None => None
              end
          | None => None
          end
      | _ => None
      end
  end.

Definition loads (bs : bytes) : result pyval :=
  match undump (S (length bs)) bs with
  | Some (v, []) => Ok v
  | _ => Raised PickleError
  end.

(** The digest is the content itself, read as text: a function of the
    bytes, as [md5] is. *)
Definition libs : Libs := {|
  md5_hexdigest := string_of_list_byte;
  pickle_dumps := fun v => Ok (dump v);
  pickle_loads := loads;
|}.

Definition cwd : string := "/srv/book".

Definition os : OS := MemFS.os cwd.

(** A format whose files hold one title; it has a LaTeX renderer. *)
Definition format : Song.Format (H := os) := {|
  Song._parse := fun f fullpath encoding config =>
    match @read_file os f fullpath with
    | Ok content =>
        Ok (mkParsed [string_of_list_byte content] (PList [PStr "english"])
                     (PList [PStr "Anonymous"]) (PDict ∅) PNone)
    | Raised e => Raised e
    end;
  Song.methods := {[ "render_latex" := fun self output args => ret (H := os) (PStr "\beginsong") ]};
|}.

(** The song class itself: nothing parses, nothing renders. *)
Definition abstract_format : Song.Format (H := os) := {|
  Song._parse := fun _ _ _ _ => Raised NotImplementedError;
  Song.methods := ∅;
|}.

Definition authors : Song.Authors := {|
  Song.process_listauthors := fun raw _ => Ok raw;
|}.

Definition config : Config := mkConfig "utf-8" ["The"; "Le"; "L'"] None ["/srv/book/data"].

Definition song_bytes : bytes := list_byte_of_string "The Song".

(** A datadir holding one song, and no cache yet. *)
Definition disk : gmap string MemFS.entry :=
  <["/srv/book/data/songs/a.sg" := MemFS.File song_bytes]>
  (<["/srv/book/data/songs" := MemFS.Dir]>
  (<["/srv/book/data" := MemFS.Dir]>
  (<["/srv/book" := MemFS.Dir]>
  (<["/srv" := MemFS.Dir]> ∅)))).

Definition world : World (H := os) := mkWorld os disk [].

(** The construction of the song of the datadir ["data"]. *)
Definition construct (config : Config) (datadir : option string) (w : World (H := os))
  : World (H := os) * result Song.t :=
  @Song.__init__ os libs format authors "songs/a.sg" config datadir w.

Definition first_run : World (H := os) * result Song.t := construct config (Some "data") world.

(** The world and the song after a first construction. *)
Definition world1 : World (H := os) := fst first_run.

Definition song1 : Song.t :=
  match snd first_run with
  | Ok song => song
  | Raised _ => Song.mk "" "" "" config ∅
  end.

(** Another configuration: no title prefix is to be removed. *)
Definition config2 : Config := mkConfig "utf-8" [] None ["/srv/book/data"].

(** The datadir with a cache file that cannot be unpickled. *)
Definition corrupt_disk : gmap string MemFS.entry :=
  <["/srv/book/data/.cache/songs/a.sg" := MemFS.File [Byte.xff]]>
  (<["/srv/book/data/.cache/songs" := MemFS.Dir]>
  (<["/srv/book/data/.cache" := MemFS.Dir]> disk)).

Definition corrupt_world : World (H := os) := mkWorld os corrupt_disk [].

(** Two directories of images; only the second has [cover.png]. *)
Definition image_disk : gmap string MemFS.entry :=
  <["/srv/book/dirB/cover.png" := MemFS.File []]>
  (<["/srv/book/dirB" := MemFS.Dir]>
  (<["/srv/book/dirA" := MemFS.Dir]> disk)).

End Examples.

(** ** The statements, in the words of the specification *)

(** The title helper as it is described: the first prefix that starts the
    title as a whole word is removed with the white space after it. *)
Module TitleSpec.

(** The title without [prefix], when it starts with it. *)
Fixpoint strip_prefix (prefix title : list ascii) : option (list ascii) :=
  match prefix, title with
  | [], _ => Some title
  | p :: prefix', c :: title' =>
      if Ascii.eqb p c then strip_prefix prefix' title' else None
  | _ :: _, [] => None
  end.

(** The prefix ends where a word ends or starts: of its last character and
    the next one of the title, exactly one is a word character. *)
Definition whole_word (prefix rest : list ascii) : bool :=
  xorb (re.word_at (rev prefix)) (re.word_at rest).

Fixpoint lstrip (l : list ascii) : list ascii :=
  match l with
  | c :: l' => if re.is_space c then lstrip l' else l
  | [] => []
  end.

(** What is left of the title once [prefix] and the white space after it
    are removed; [None] when the prefix does not match. *)
Definition remainder (prefix title : string) : option (list ascii) :=
  match strip_prefix (list_ascii_of_string prefix) (list_ascii_of_string title) with
  | Some rest =>
      if whole_word (list_ascii_of_string prefix) rest then Some (lstrip rest) else None
  | None => None
  end.

(** As specified: the remainder for the first prefix that matches, the title
    when none does. *)
Fixpoint unprefixed (title : string) (prefixes : list string) : string :=
  match prefixes with
  | [] => title
  | prefix :: prefixes' =>
      match remainder prefix title with
      | Some r => string_of_list_ascii r
      | None => unprefixed title prefixes'
      end
  end.

(** The first line of [l], and what follows it. *)
Fixpoint first_line (l : list ascii) : list ascii * list ascii :=
  match l with
  | c :: l' =>
      if re.is_linebreak c then ([], l)
      else let '(line, rest) := first_line l' in (c :: line, rest)
  | [] => ([], [])
  end.

(** A remainder that is one line, with or without a final line feed,
    gives that line. *)
Definition single_line (r : list ascii) : option (list ascii) :=
  match first_line r with
  | (line, []) => Some line
  | (line, [_]) => Some line
  | _ => None
  end.

(** As the pattern has it: a prefix counts when its remainder is a single
    line, and that line is returned. *)
Fixpoint unprefixed_line (title : string) (prefixes : list string) : string :=
  match prefixes with
  | [] => title
  | prefix :: prefixes' =>
      match remainder prefix title with
      | Some r =>
          match single_line r with
          | Some line => string_of_list_ascii line
          | None => unprefixed_line title prefixes'
          end
      | None => unprefixed_line title prefixes'
      end
  end.

(** The line feed, as a string. *)
Definition LF : string := String "010" "".

Definition no_linebreak (title : string) : Prop :=
  Forall (fun c => re.is_linebreak c = false) (list_ascii_of_string title).

End TitleSpec.

(** The statements about the song. *)
Module SongSpec.
Section SongSpec.
Context `{os : OS} {libs : Libs} {format : Song.Format} {authors : Song.Authors}.

(** The paths that [search_file] tries, in the order it tries them. *)
Definition candidates (filename : string) (extensions directories : list string) : list string :=
  flat_map (fun directory =>
              map (fun extension => posixpath.join directory (filename +:+ extension)) extensions)
           directories.

(** Where the cache of a song is. *)
Definition cache_path (datadir subpath : string) : string :=
  posixpath.abspath getcwd (posixpath.join3 datadir ".cache" subpath).

Definition cache_dir (datadir subpath : string) : string :=
  posixpath.dirname (cache_path datadir subpath).

(** The cache file of the song is there and holds [content]. *)
Definition cache_file (f : fs) (datadir subpath : string) (content : bytes) : Prop :=
  path_isdir f (cache_dir datadir subpath) = true
  /\ path_exists f (cache_path datadir subpath) = true
  /\ read_file f (cache_path datadir subpath) = Ok content.

(** A snapshot: a dictionary with every name of [cached_attributes]. *)
Definition complete (snap : gmap string pyval) : Prop :=
  forall attribute, In attribute Song.cached_attributes -> is_Some (snap !! attribute).

(** The stored hash and the stored version are the expected ones. *)
Definition fresh (snap : gmap string pyval) (filehash : string) : bool :=
  match snap !! "_filehash", snap !! "_version" with
  | Some h, Some v => (py_eq_str h filehash && py_eq_int v Song.CACHE_VERSION)%bool
  | _, _ => false
  end.

(** The unpickled object is stale: its hash is read and is not the
    expected one, or its version is read and is not the expected one. *)
Definition stale (cached : pyval) (filehash : string) : Prop :=
  exists h,
    getitem cached "_filehash" = Ok h
    /\ (py_eq_str h filehash = false
        \/ (py_eq_str h filehash = true
            /\ exists v, getitem cached "_version" = Ok v
                         /\ py_eq_int v Song.CACHE_VERSION = false)).

(** The attributes of a song restored from [snap]. *)
Definition restored (snap : gmap string pyval) : gmap string pyval :=
  filter (fun kv => In (fst kv) Song.cached_attributes) snap.

(** The ways the use of a cache file fails: the file cannot be read, its
    content cannot be unpickled, or a key that is read is missing in the
    unpickled object. *)
Inductive load_failure (f : fs) (datadir subpath filehash : string) : Prop :=
| unreadable e :
    read_file f (cache_path datadir subpath) = Raised e ->
    load_failure f datadir subpath filehash
| corrupt content e :
    read_file f (cache_path datadir subpath) = Ok content ->
    pickle_loads content = Raised e ->
    load_failure f datadir subpath filehash
| no_filehash content cached e :
    read_file f (cache_path datadir subpath) = Ok content ->
    pickle_loads content = Ok cached ->
    getitem cached "_filehash" = Raised e ->
    load_failure f datadir subpath filehash
| no_version content cached h e :
    read_file f (cache_path datadir subpath) = Ok content ->
    pickle_loads content = Ok cached ->
    getitem cached "_filehash" = Ok h ->
    py_eq_str h filehash = true ->
    getitem cached "_version" = Raised e ->
    load_failure f datadir subpath filehash
| no_attribute content cached h v attribute e :
    read_file f (cache_path datadir subpath) = Ok content ->
    pickle_loads content = Ok cached ->
    getitem cached "_filehash" = Ok h ->
    py_eq_str h filehash = true ->
    getitem cached "_version" = Ok v ->
    py_eq_int v Song.CACHE_VERSION = true ->
    In attribute Song.cached_attributes ->
    getitem cached attribute = Raised e ->
    load_failure f datadir subpath filehash.

(** The world after more events, on the same file system. *)
Definition after (w : World) (events : list event) : World :=
  mkWorld _ (w_fs w) (w_events w ++ events).

(** The events of the search for a cache file, and of its use. *)
Definition lookup_events (datadir subpath : string) : list event :=
  [ EvRead (posixpath.join datadir subpath);
    EvMakedirs (cache_dir datadir subpath) ].

Definition attempt (datadir subpath : string) : list event :=
  [ EvMakedirs (cache_dir datadir subpath);
    EvRead (cache_path datadir subpath) ].

(** The attributes of a song once it is parsed and post-processed. *)
Definition constructed (self : gmap string pyval) (subpath : string) (parsed : Parsed)
           (unprefixed : list string) (processed : pyval) : gmap string pyval :=
  <["_version" := PInt Song.CACHE_VERSION]>
  (<["authors" := processed]>
  (<["unprefixed_titles" := Song.str_list unprefixed]>
  (<["subpath" := PStr subpath]>
  (<["cached" := p_cached parsed]>
  (<["data" := p_data parsed]>
  (<["authors" := p_authors parsed]>
  (<["languages" := p_languages parsed]>
  (<["titles" := Song.str_list (p_titles parsed)]>
  (<["cached" := PNone]>
  (<["data" := PDict ∅]>
  (<["titles" := PList []]> self))))))))))).

(** What the constructor does on a cache miss, for a song in a datadir
    whose file has the hash [filehash]: parse, post-process, store. *)
Definition parse_and_store (subpath : string) (config : Config) (datadir filehash : string)
  : M Song.t :=
  let fullpath := posixpath.join datadir subpath in
  self <- Song.extract subpath config datadir fullpath {[ "_filehash" := PStr filehash ]} ;;
  ret (Song.mk datadir fullpath (cfg_encoding config) config self).

(** A computation that does not read the log of events: on two worlds
    with the same file system it gives the same result and the same file
    system. *)
Definition log_blind {A} (m : M A) : Prop :=
  forall w1 w2 : World,
    w_fs w1 = w_fs w2 ->
    w_fs (fst (m w1)) = w_fs (fst (m w2)) /\ snd (m w1) = snd (m w2).

(** Events of the given kinds. *)
Definition is_parse (e : event) : bool :=
  match e with EvParse _ => true | _ => false end.

Definition is_cache_access (e : event) : bool :=
  match e with EvRead _ | EvWrite _ | EvMakedirs _ => true | _ => false end.

End SongSpec.
End SongSpec.

(** ** More worlds to run the module in *)
Module Scenarios.

(** The datadir with the directory of its cache, and no cache file yet. *)
Definition cache_dir_disk : gmap string MemFS.entry :=
  <["/srv/book/data/.cache/songs" := MemFS.Dir]>
  (<["/srv/book/data/.cache" := MemFS.Dir]> Examples.disk).

Definition cache_dir_world : World (H := Examples.os) := mkWorld Examples.os cache_dir_disk [].

(** A file in the place of the directory of the cache. *)
Definition blocked_disk : gmap string MemFS.entry :=
  <["/srv/book/data/.cache/songs" := MemFS.File []]>
  (<["/srv/book/data/.cache" := MemFS.Dir]> Examples.disk).

Definition blocked_world : World (H := Examples.os) := mkWorld Examples.os blocked_disk [].



(** The datadir after the first construction, its cache file emptied. *)
Definition truncated_disk : gmap string MemFS.entry :=
  <["/srv/book/data/.cache/songs/a.sg" := MemFS.File []]> (w_fs Examples.world1).

(** The song of the examples, built by its path and without a datadir. *)
Definition plain_run : World (H := Examples.os) * result Song.t :=
  @Song.__init__ Examples.os Examples.libs Examples.format Examples.authors
    "data/songs/a.sg" Examples.config None Examples.world.

Definition plain_song : Song.t :=
  match snd plain_run with
  | Ok song => song
  | Raised _ => Song.mk "" "" "" Examples.config ∅
  end.

(** A pickle that refuses every object. *)
Definition failing_libs : Libs := {|
  md5_hexdigest := string_of_list_byte;
  pickle_dumps := fun _ => Raised PickleError;
  pickle_loads := Examples.loads;
|}.

(** An image in the [img] directory of the datadir. *)
Definition cover_disk : gmap string MemFS.entry :=
  <["/srv/book/data/img/cover.jpg" := MemFS.File []]>
  (<["/srv/book/data/img" := MemFS.Dir]> Examples.disk).

End Scenarios.

(** * Properties *)

(** ** posixpath *)

Example join_relative : posixpath.join "data" "songs/a.sg" = "data/songs/a.sg".
Proof. reflexivity. Qed.

Example join_absolute : posixpath.join "data" "/etc/a.sg" = "/etc/a.sg".
Proof. reflexivity. Qed.

Example join_empty : posixpath.join "" "a.sg" = "a.sg".
Proof. reflexivity. Qed.

Example dirname_nested :
  posixpath.dirname "/srv/book/.cache/songs/a.sg" = "/srv/book/.cache/songs".
Proof. reflexivity. Qed.

Example dirname_root : posixpath.dirname "/a.sg" = "/".
Proof. reflexivity. Qed.

Example dirname_bare : posixpath.dirname "a.sg" = "".
Proof. reflexivity. Qed.

Example abspath_normalizes :
  posixpath.abspath "/srv/book" "data/./.cache/../.cache//songs/a.sg"
  = "/srv/book/data/.cache/songs/a.sg".
Proof. reflexivity. Qed.

Example abspath_dotdot : posixpath.abspath "/srv" "../../x" = "/x".
Proof. reflexivity. Qed.

Example normpath_slashes :
  posixpath.normpath "//a" = "//a" /\ posixpath.normpath "///a" = "/a"
  /\ posixpath.normpath "a/.." = "." /\ posixpath.normpath "../a/" = "../a".
Proof. repeat split; reflexivity. Qed.

Lemma isabs_append a b : a <> "" -> posixpath.isabs (a +:+ b) = posixpath.isabs a.
Proof. destruct a as [|c a]; [congruence | reflexivity]. Qed.

Lemma join_isabs a b : posixpath.isabs b = true -> posixpath.join a b = b.
Proof. intros Hb. unfold posixpath.join. now rewrite Hb. Qed.

Lemma join_relative_cases a b :
  posixpath.isabs b = false ->
  posixpath.join a b = a +:+ b \/ posixpath.join a b = a +:+ "/" +:+ b.
Proof.
  intros Hb. unfold posixpath.join. rewrite Hb.
  destruct (String.eqb a "" || posixpath.endswith_sep a)%bool; auto.
Qed.

Lemma isabs_join_relative a b :
  posixpath.isabs b = false -> posixpath.isabs (posixpath.join a b) = posixpath.isabs a.
Proof.
  intros Hb. destruct a as [|c a].
  - unfold posixpath.join. rewrite Hb. simpl. exact Hb.
  - destruct (join_relative_cases (String c a) b Hb) as [-> | ->]; reflexivity.
Qed.

(** ** DataSubpath *)

(** The constructor establishes the invariant. *)
Lemma DataSubpath_init_invariant datadir subpath :
  DataSubpath.invariant (DataSubpath.__init__ datadir subpath).
Proof.
  unfold DataSubpath.invariant, DataSubpath.__init__.
  destruct (posixpath.isabs subpath) eqn:Habs; simpl; [reflexivity | congruence].
Qed.

Lemma DataSubpath_clone_invariant self :
  DataSubpath.invariant (DataSubpath.clone self).
Proof. apply DataSubpath_init_invariant. Qed.

(** Joining a relative path keeps the invariant. *)
Lemma DataSubpath_join_relative_invariant self path :
  posixpath.isabs path = false ->
  DataSubpath.invariant self ->
  DataSubpath.invariant (DataSubpath.join self path).
Proof.
  unfold DataSubpath.invariant, DataSubpath.join. simpl.
  intros Hrel Hinv. rewrite (isabs_join_relative _ _ Hrel). exact Hinv.
Qed.

(** Joining an absolute path replaces the subpath and keeps the datadir:
    with a datadir that is not empty the invariant is lost. *)
Lemma DataSubpath_join_absolute self path :
  posixpath.isabs path = true ->
  DataSubpath.join self path = DataSubpath.mk (DataSubpath.datadir self) path.
Proof.
  intros Habs. unfold DataSubpath.join. now rewrite (join_isabs _ _ Habs).
Qed.

(** The full path of a state that [join] made absolute is the joined
    path, whatever the datadir. *)
Lemma DataSubpath_fullpath_absolute self :
  posixpath.isabs (DataSubpath.subpath self) = true ->
  DataSubpath.fullpath self = DataSubpath.subpath self.
Proof. intros Habs. unfold DataSubpath.fullpath. now apply join_isabs. Qed.

(** C4, on the code: after [DataSubpath("data", "songs").join("/etc/passwd")]
    the object is in a reachable state whose subpath is absolute and whose
    datadir is still ["data"]; the invariant that the constructor
    establishes does not hold in it, and [clone] gives a different object. *)
Theorem DataSubpath_join_absolute_keeps_datadir :
  let self := DataSubpath.join (DataSubpath.__init__ "data" "songs") "/etc/passwd" in
  DataSubpath.reachable self
  /\ DataSubpath.subpath self = "/etc/passwd"
  /\ DataSubpath.datadir self = "data"
  /\ ~ DataSubpath.invariant self
  /\ DataSubpath.clone self <> self.
Proof.
  cbv zeta. split; [| split; [| split; [| split]]].
  - apply DataSubpath.reach_join, DataSubpath.reach_init.
  - reflexivity.
  - reflexivity.
  - intros Hinv. specialize (Hinv eq_refl). discriminate Hinv.
  - intros Heq. discriminate Heq.
Qed.

(** The invariant is not an invariant of the reachable states. *)
Lemma DataSubpath_invariant_not_kept :
  ~ (forall self, DataSubpath.reachable self -> DataSubpath.invariant self).
Proof.
  intros Hall.
  specialize (Hall (DataSubpath.join (DataSubpath.__init__ "srv" "a") "/b")).
  assert (Hreach : DataSubpath.reachable
                     (DataSubpath.join (DataSubpath.__init__ "srv" "a") "/b"))
    by apply DataSubpath.reach_join, DataSubpath.reach_init.
  specialize (Hall Hreach eq_refl). discriminate Hall.
Qed.

(** ** re: what the pattern of [unprefixed_title] matches *)

Lemma match_node_subpattern {R} g body st (k : re.state -> option R) :
  re.match_node (re.SUBPATTERN g body) st k
  = re.match_nodes body st
      (fun st' => k (re.State (re.before st') (re.after st')
                              (<[g := re.consumed st st']> (re.groups st')))).
Proof. reflexivity. Qed.

Lemma consumed_app (l b : list ascii) :
  rev (firstn (length (rev l ++ b) - length b) (rev l ++ b)) = l.
Proof.
  rewrite length_app, Nat.add_sub.
  rewrite <- (Nat.add_0_r (length (rev l))), firstn_app_2. simpl.
  rewrite app_nil_r. apply rev_involutive.
Qed.

(** A run of literals matches exactly when the subject starts with it. *)
Lemma match_literals {R} (p : list ascii) st (k : re.state -> option R) :
  re.match_nodes (map re.LITERAL p) st k
  = match TitleSpec.strip_prefix p (re.after st) with
    | Some rest => k (re.State (rev p ++ re.before st) rest (re.groups st))
    | None => None
    end.
Proof.
  revert st. induction p as [|c p IH]; intros [bef aft gs]; simpl.
  - reflexivity.
  - destruct aft as [|c' aft']; [reflexivity |].
    destruct (Ascii.eqb c c') eqn:Hc; [| reflexivity].
    apply Ascii.eqb_eq in Hc. subst c'. rewrite IH. simpl.
    destruct (TitleSpec.strip_prefix p aft'); [| reflexivity].
    now rewrite <- app_assoc.
Qed.

(** The greedy run of any characters before [$] takes the whole first
    line, and there is no other way to reach the end. *)
Lemma max_repeat_any {R} (F : list ascii -> R) gs (k : re.state -> option R) :
  (forall b a, k (re.State b a gs) = if re.at_end_of a then Some (F b) else None) ->
  forall aft bef,
    re.max_repeat re.ANY bef aft gs k
    = match TitleSpec.single_line aft with
      | Some line => Some (F (rev line ++ bef))
      | None => None
      end.
Proof.
  intros Hk. unfold TitleSpec.single_line.
  induction aft as [|c aft IH]; intros bef; simpl.
  - now rewrite Hk.
  - destruct (re.is_linebreak c) eqn:Hc; simpl.
    + rewrite Hk. simpl. rewrite Hc. destruct aft; reflexivity.
    + rewrite IH.
      destruct (TitleSpec.first_line aft) as [line rest] eqn:Hfl.
      destruct rest as [|r1 [|r2 rest]]; simpl.
      * now rewrite <- app_assoc.
      * now rewrite <- app_assoc.
      * rewrite Hk. destruct aft as [|a1 aft]; [discriminate Hfl | reflexivity].
Qed.

Lemma single_line_lstrip l :
  TitleSpec.single_line (TitleSpec.lstrip l) = None -> TitleSpec.single_line l = None.
Proof.
  induction l as [|c l IH]; simpl; [auto |].
  destruct (re.is_space c) eqn:Hs; [| auto].
  intros Hnone. specialize (IH Hnone). revert IH.
  unfold TitleSpec.single_line. simpl.
  destruct (re.is_linebreak c).
  - destruct l; [discriminate | reflexivity].
  - destruct (TitleSpec.first_line l) as [line [|r1 [|r2 rest]]]; congruence.
Qed.

(** The greedy run of white space takes all of it: when the rest of the
    pattern fails after the whole run, it fails after a part of it. *)
Lemma max_repeat_space {R} (G : list ascii -> option R) gs (k : re.state -> option R) :
  (forall b a, k (re.State b a gs) = G a) ->
  (forall l, G (TitleSpec.lstrip l) = None -> G l = None) ->
  forall aft bef,
    re.max_repeat re.CATEGORY_SPACE bef aft gs k = G (TitleSpec.lstrip aft).
Proof.
  intros Hk HG. induction aft as [|c aft IH]; intros bef; simpl.
  - apply Hk.
  - destruct (re.is_space c) eqn:Hs.
    + rewrite IH. destruct (G (TitleSpec.lstrip aft)) eqn:HGa; [reflexivity |].
      rewrite Hk. apply HG. simpl. now rewrite Hs.
    + apply Hk.
Qed.

Lemma match_nodes_cons {R} n ns st (k : re.state -> option R) :
  re.match_nodes (n :: ns) st k = re.match_node n st (fun st' => re.match_nodes ns st' k).
Proof. reflexivity. Qed.

(** The second group and the end of the subject. *)
Lemma match_tail gs bef aft :
  re.match_nodes [re.SUBPATTERN 2 [re.MAX_REPEAT re.ANY]; re.AT_END]
                 (re.State bef aft gs) (fun st => Some (re.groups st))
  = match TitleSpec.single_line aft with
    | Some line => Some (<[2%nat := string_of_list_ascii line]> gs)
    | None => None
    end.
Proof.
  rewrite match_nodes_cons, match_node_subpattern, match_nodes_cons.
  cbn [re.match_node re.before re.after re.groups].
  rewrite (max_repeat_any
             (fun b' => <[2%nat := string_of_list_ascii
                                     (rev (firstn (length b' - length bef) b'))]> gs)).
  - destruct (TitleSpec.single_line aft) as [line|]; [| reflexivity].
    now rewrite consumed_app.
  - intros b a. cbn. unfold re.at_end. cbn [re.after].
    destruct a as [|c [|c' a]]; reflexivity.
Qed.

(** The match of the compiled pattern, in closed form: its second group. *)
Lemma match_prefix_pattern (prefix title : string) (pattern : list re.node) :
  re.compile_prefix prefix = Some pattern ->
  (fun m => re.group m 2) <$> re.match_ pattern title
  = match TitleSpec.remainder prefix title with
    | Some r => string_of_list_ascii <$> TitleSpec.single_line r
    | None => None
    end.
Proof.
  unfold re.compile_prefix. destruct (re.literal prefix); [| discriminate].
  intros [= <-]. unfold re.match_, TitleSpec.remainder.
  rewrite match_nodes_cons. cbn [re.match_node re.at_beginning re.before].
  rewrite match_nodes_cons, match_node_subpattern, match_literals.
  cbn [re.after re.groups re.before].
  destruct (TitleSpec.strip_prefix _ _) as [rest|]; [| reflexivity].
  rewrite match_nodes_cons. cbn [re.match_node]. unfold re.at_boundary. cbn [re.before re.after].
  rewrite app_nil_r. fold (TitleSpec.whole_word (list_ascii_of_string prefix) rest).
  destruct (TitleSpec.whole_word _ _); [| reflexivity].
  rewrite match_nodes_cons. cbn [re.match_node re.before re.after re.groups].
  match goal with |- context [re.max_repeat _ _ _ ?g _] => set (gs := g) end.
  rewrite (max_repeat_space
             (fun a => match TitleSpec.single_line a with
                       | Some line => Some (<[2%nat := string_of_list_ascii line]> gs)
                       | None => None
                       end)).
  - destruct (TitleSpec.single_line (TitleSpec.lstrip rest)); [| reflexivity].
    simpl. unfold re.group. now rewrite lookup_insert_eq.
  - intros b a. apply match_tail.
  - intros l Hl. destruct (TitleSpec.single_line (TitleSpec.lstrip l)) eqn:Hs; [discriminate |].
    now rewrite (single_line_lstrip _ Hs).
Qed.

Lemma unprefixed_title_cons title prefix prefixes :
  re.literal prefix = true ->
  unprefixed_title title (prefix :: prefixes)
  = match TitleSpec.remainder prefix title with
    | Some r =>
        match TitleSpec.single_line r with
        | Some line => Some (string_of_list_ascii line)
        | None => unprefixed_title title prefixes
        end
    | None => unprefixed_title title prefixes
    end.
Proof.
  intros Hlit. simpl.
  destruct (re.compile_prefix prefix) as [pattern|] eqn:Hc.
  - pose proof (match_prefix_pattern prefix title pattern Hc) as Hm.
    destruct (re.match_ pattern title) as [m|]; simpl in Hm.
    + destruct (TitleSpec.remainder prefix title) as [r|]; [| discriminate].
      destruct (TitleSpec.single_line r); [| discriminate].
      simpl in Hm. congruence.
    + destruct (TitleSpec.remainder prefix title) as [r|]; [| reflexivity].
      destruct (TitleSpec.single_line r); [discriminate | reflexivity].
  - unfold re.compile_prefix in Hc. rewrite Hlit in Hc. discriminate.
Qed.

(** Without a line feed every remainder is a single line. *)
Lemma first_line_no_linebreak l :
  Forall (fun c => re.is_linebreak c = false) l -> TitleSpec.first_line l = (l, []).
Proof.
  induction 1 as [|c l Hc _ IH]; simpl; [reflexivity |].
  now rewrite Hc, IH.
Qed.

Lemma strip_prefix_forall (P : ascii -> Prop) p l rest :
  TitleSpec.strip_prefix p l = Some rest -> Forall P l -> Forall P rest.
Proof.
  revert l. induction p as [|c p IH]; intros l; simpl.
  - now intros [= <-].
  - destruct l as [|c' l]; [discriminate |].
    destruct (Ascii.eqb c c'); [| discriminate].
    intros Hs Hall. inversion Hall; subst. eauto.
Qed.

Lemma lstrip_forall (P : ascii -> Prop) l : Forall P l -> Forall P (TitleSpec.lstrip l).
Proof.
  induction 1 as [|c l Hc Hl IH]; simpl; [constructor |].
  destruct (re.is_space c); [exact IH | now constructor].
Qed.

Lemma single_line_no_linebreak prefix title r :
  TitleSpec.no_linebreak title ->
  TitleSpec.remainder prefix title = Some r ->
  TitleSpec.single_line r = Some r.
Proof.
  unfold TitleSpec.no_linebreak, TitleSpec.remainder. intros Hall.
  destruct (TitleSpec.strip_prefix _ _) as [rest|] eqn:Hs; [| discriminate].
  destruct (TitleSpec.whole_word _ _); [| discriminate].
  intros [= <-]. unfold TitleSpec.single_line.
  rewrite first_line_no_linebreak; [reflexivity |].
  apply lstrip_forall. eapply strip_prefix_forall; eauto.
Qed.

Lemma unprefixed_line_no_linebreak title prefixes :
  TitleSpec.no_linebreak title ->
  TitleSpec.unprefixed_line title prefixes = TitleSpec.unprefixed title prefixes.
Proof.
  intros Hall. induction prefixes as [|prefix prefixes IH]; simpl; [reflexivity |].
  destruct (TitleSpec.remainder prefix title) as [r|] eqn:Hr; [| exact IH].
  now rewrite (single_line_no_linebreak _ _ _ Hall Hr).
Qed.

Lemma unprefixed_title_line title prefixes :
  Forall (fun prefix => re.literal prefix = true) prefixes ->
  unprefixed_title title prefixes = Some (TitleSpec.unprefixed_line title prefixes).
Proof.
  induction 1 as [|prefix prefixes Hlit _ IH]; [reflexivity |].
  rewrite (unprefixed_title_cons _ _ _ Hlit). simpl.
  destruct (TitleSpec.remainder prefix title) as [r|]; [| exact IH].
  destruct (TitleSpec.single_line r); [reflexivity | exact IH].
Qed.

(** ** unprefixed_title *)

Example unprefixed_title_the_song : unprefixed_title "The Song" ["The"] = Some "Song".
Proof. reflexivity. Qed.

Example unprefixed_title_song : unprefixed_title "Song" ["The"] = Some "Song".
Proof. reflexivity. Qed.

(** A prefix that is only the beginning of a word is not removed. *)
Example unprefixed_title_theory : unprefixed_title "Theory" ["The"] = Some "Theory".
Proof. reflexivity. Qed.

(** The order of the list decides: ["L'"] comes first and matches. *)
Example unprefixed_title_order :
  unprefixed_title "L'amour" ["The"; "L'"; "L"] = Some "amour"
  /\ unprefixed_title "L'amour" ["L"; "L'"] = Some "'amour".
Proof. split; reflexivity. Qed.

(** C7, on the code: the title [The A], a line feed, [B].  The prefix
    [The] is at the beginning of the title, as a whole word, with white
    space after it; the code returns the title as it is, where the
    prefix and the white space were to be removed.  And of the title
    [The Song] with a final line feed the code returns [Song]: the line
    feed of the remainder is lost. *)
Theorem unprefixed_title_line_feed :
  let title := "The A" +:+ TitleSpec.LF +:+ "B" in
  TitleSpec.remainder "The" title
  = Some (list_ascii_of_string ("A" +:+ TitleSpec.LF +:+ "B"))
  /\ unprefixed_title title ["The"] = Some title
  /\ TitleSpec.unprefixed title ["The"] = "A" +:+ TitleSpec.LF +:+ "B"
  /\ unprefixed_title ("The Song" +:+ TitleSpec.LF) ["The"] = Some "Song"
  /\ TitleSpec.unprefixed ("The Song" +:+ TitleSpec.LF) ["The"] = "Song" +:+ TitleSpec.LF.
Proof. cbv zeta. repeat split; vm_compute; reflexivity. Qed.

(** The closed form of the function.  For every title and every ordered
    list of prefixes made of literal characters, [unprefixed_title]
    returns the remainder for the first prefix of the list that starts the
    title as a whole word and whose remainder, once the white space after
    the prefix is removed, is a single line; that line is returned without
    its final line feed, and the title is returned unchanged when no
    prefix of the list does so.
    For a title without a line feed this is the specified behaviour: the
    first prefix that starts the title as a whole word is removed with the
    white space that follows it.  The two examples of the specification
    hold. *)
Theorem unprefixed_title_first_match :
  (forall title prefixes,
      Forall (fun prefix => re.literal prefix = true) prefixes ->
      unprefixed_title title prefixes = Some (TitleSpec.unprefixed_line title prefixes)
      /\ (TitleSpec.no_linebreak title ->
          unprefixed_title title prefixes = Some (TitleSpec.unprefixed title prefixes)))
  /\ unprefixed_title "The Song" ["The"] = Some "Song"
  /\ unprefixed_title "Song" ["The"] = Some "Song".
Proof.
  split; [| split; reflexivity].
  intros title prefixes Hlit. split.
  - now apply unprefixed_title_line.
  - intros Hnl. rewrite (unprefixed_title_line _ _ Hlit).
    now rewrite (unprefixed_line_no_linebreak _ _ Hnl).
Qed.

(** On a French title, with a list of two prefixes. *)
Lemma unprefixed_title_first_match_witness :
  Forall (fun prefix => re.literal prefix = true) ["The"; "Le"]
  /\ TitleSpec.no_linebreak "Le Temps des cerises"
  /\ unprefixed_title "Le Temps des cerises" ["The"; "Le"] = Some "Temps des cerises".
Proof.
  assert (Hlit : Forall (fun prefix => re.literal prefix = true) ["The"; "Le"])
    by (repeat constructor).
  assert (Hnl : TitleSpec.no_linebreak "Le Temps des cerises")
    by (repeat constructor).
  split; [exact Hlit | split; [exact Hnl |]].
  exact (proj2 (proj1 unprefixed_title_first_match "Le Temps des cerises" ["The"; "Le"] Hlit) Hnl).
Defined.

(** ** The monad *)

Section Properties.
Context `{os : OS} {libs : Libs} {format : Song.Format} {authors : Song.Authors}.

Lemma bind_ret {A B} (a : A) (k : A -> M B) w : bind (ret a) k w = k a w.
Proof. reflexivity. Qed.

Lemma bind_lift_ok {A B} (a : A) (k : A -> M B) w : bind (lift (Ok a)) k w = k a w.
Proof. reflexivity. Qed.

Lemma bind_lift_raised {A B} e (k : A -> M B) w :
  bind (lift (Raised e)) k w = (w, Raised e).
Proof. reflexivity. Qed.

Lemma bind_run {A B} (m : M A) (k : A -> M B) w w' a :
  m w = (w', Ok a) -> bind m k w = k a w'.
Proof. intros Hm. unfold bind. now rewrite Hm. Qed.

Lemma bind_ok_inv {A B} (m : M A) (k : A -> M B) w w' b :
  bind m k w = (w', Ok b) ->
  exists w0 a, m w = (w0, Ok a) /\ k a w0 = (w', Ok b).
Proof.
  unfold bind. destruct (m w) as [w0 [a | e]]; [eauto | discriminate].
Qed.

(** ** render *)

(** C8.  [render] calls the method named [render_] followed by the output
    format when the song has one, with the output and the arguments, and
    returns what it returns; it raises [NotImplementedError] when the song
    has no such method. *)
Theorem render_dispatch (self : Song.t) (output_format : string) (output : pyval)
        (args : list pyval) (w : World) :
  (forall method : Song.t -> pyval -> list pyval -> M pyval,
      Song.methods !! ("render_" +:+ output_format) = Some method ->
      Song.render self output_format output args w = method self output args w)
  /\ (Song.methods !! ("render_" +:+ output_format) = None ->
      Song.render self output_format output args w = (w, Raised NotImplementedError)).
Proof.
  unfold Song.render. cbv zeta. split.
  - intros method Hm. now rewrite Hm.
  - intros Hm. now rewrite Hm.
Qed.

(** ** Songs without a datadir *)

Lemma join_empty_left subpath : posixpath.join "" subpath = subpath.
Proof. unfold posixpath.join. destruct (posixpath.isabs subpath); reflexivity. Qed.

(** C9.  A song built with no datadir, or with the empty datadir, is not
    cached.  The constructor does nothing to the outside but run the
    parser, once: no file is read, no directory is made, no file is
    written and the file system is left as it was, whether the constructor
    returns or raises.  And the parser does run: what the constructor
    gives is what [_parse] gives on the path of the song, which is the
    subpath: the exception of [_parse] when it raises, the exception of
    the post-processing when that raises, and else the song whose
    attributes are those that [_parse] set, post-processed; that song has
    no [_filehash]. *)
Theorem no_datadir_no_cache (subpath : string) (config : Config)
        (datadir : option string) (w : World) :
  datadir = None \/ datadir = Some "" ->
  let run := Song.__init__ subpath config datadir w in
  (w_fs (fst run) = w_fs w /\ w_events (fst run) = w_events w ++ [EvParse subpath])
  /\ match Song._parse (w_fs w) subpath (cfg_encoding config) config with
     | Raised e => snd run = Raised e
     | Ok parsed =>
         match Song.unprefixed_titles (p_titles parsed) (cfg_titleprefixwords config) with
         | None => snd run = Raised Unmodelled
         | Some unprefixed =>
             match Song.process_listauthors (p_authors parsed)
                     (default (PDict ∅) (cfg_compiled_authwords config)) with
             | Raised e => snd run = Raised e
             | Ok processed =>
                 snd run
                 = Ok (Song.mk "" subpath (cfg_encoding config) config
                         (SongSpec.constructed ∅ subpath parsed unprefixed processed))
             end
         end
     end.
Proof.
  intros Hd. assert (Ht : Song.truthy datadir = false) by (destruct Hd; subst; reflexivity).
  assert (Hdd : default "" datadir = "") by (destruct Hd; subst; reflexivity).
  cbv zeta. unfold Song.__init__. rewrite Ht, Hdd, join_empty_left, bind_ret.
  unfold Song.extract, Song.parse, bind, emit, lift, ret. simpl.
  destruct (Song._parse _ _ _ _) as [parsed | e]; simpl; [| auto].
  destruct (Song.unprefixed_titles _ _); simpl; [| auto].
  destruct (Song.process_listauthors _ _); simpl; auto.
Qed.

(** ** cached_name *)

Lemma isabs_normpath p : posixpath.isabs p = true -> posixpath.isabs (posixpath.normpath p) = true.
Proof.
  intros Habs. unfold posixpath.normpath. rewrite Habs.
  assert (Hne : String.eqb p "" = false) by (destruct p; [discriminate | reflexivity]).
  rewrite Hne.
  set (n := if (posixpath.startswith2 p && negb (posixpath.startswith3 p))%bool
            then 2%nat else 1%nat).
  assert (Hn : exists n', n = S n') by (subst n; destruct (_ && _)%bool; eauto).
  destruct Hn as [n' ->]. reflexivity.
Qed.

Lemma isabs_abspath cwd p :
  posixpath.isabs cwd = true -> posixpath.isabs (posixpath.abspath cwd p) = true.
Proof.
  intros Hcwd. unfold posixpath.abspath. apply isabs_normpath.
  destruct (posixpath.isabs p) eqn:Hp; [exact Hp |].
  now rewrite (isabs_join_relative _ _ Hp).
Qed.

Lemma endswith_sep_append a c b :
  posixpath.endswith_sep (a +:+ String c b) = posixpath.endswith_sep (String c b).
Proof.
  induction a as [|c' a IH]; [reflexivity |].
  change (String c' a +:+ String c b) with (String c' (a +:+ String c b)).
  destruct a; exact IH.
Qed.

Lemma append_not_empty a c b : String.eqb (a +:+ String c b) "" = false.
Proof. destruct a; reflexivity. Qed.

(** The cache of a relative file name is below the [.cache] of the datadir. *)
Lemma join3_cache datadir filename :
  posixpath.isabs filename = false ->
  posixpath.join3 datadir ".cache" filename
  = posixpath.join datadir ".cache" +:+ "/" +:+ filename.
Proof.
  intros Hrel. unfold posixpath.join3.
  assert (Hne : String.eqb (posixpath.join datadir ".cache") "" = false
                /\ posixpath.endswith_sep (posixpath.join datadir ".cache") = false).
  { destruct (join_relative_cases datadir ".cache" eq_refl) as [-> | ->];
      [| change ("/" +:+ ".cache") with "/.cache"];
      now rewrite append_not_empty, endswith_sep_append. }
  destruct Hne as [Hne Hsep].
  set (cache := posixpath.join datadir ".cache") in *.
  unfold posixpath.join. now rewrite Hrel, Hne, Hsep.
Qed.

(** An absolute file name is its own cache: the datadir is not used. *)
Lemma join3_absolute datadir filename :
  posixpath.isabs filename = true -> posixpath.join3 datadir ".cache" filename = filename.
Proof. intros Habs. unfold posixpath.join3. now apply join_isabs. Qed.

(** C5.  [cached_name] asks for the directory of the absolute path of
    [datadir/.cache/filename] to be made, with its missing ancestors.  When
    that succeeds it returns the path, and the directory exists.  When it
    fails because the directory exists already ([EEXIST], and the path is
    a directory) the failure is swallowed and the path is returned.  Any
    other failure is raised again, with its [errno].  The path is
    absolute, and for a relative file name it is the one of the file name
    below the [.cache] of the datadir. *)
Theorem cached_name_location {laws : OSLaws os} (datadir filename : string) (w : World) :
  posixpath.isabs getcwd = true ->
  let fullpath := posixpath.abspath getcwd (posixpath.join3 datadir ".cache" filename) in
  let directory := posixpath.dirname fullpath in
  let w' := mkWorld _ (fst (makedirs (w_fs w) directory))
                    (w_events w ++ [EvMakedirs directory]) in
  posixpath.isabs fullpath = true
  /\ (posixpath.isabs filename = false ->
      posixpath.join3 datadir ".cache" filename
      = posixpath.join datadir ".cache" +:+ "/" +:+ filename)
  /\ match snd (makedirs (w_fs w) directory) with
     | None =>
         cached_name datadir filename w = (w', Ok fullpath)
         /\ path_isdir (w_fs w') directory = true
     | Some errno =>
         if (Z.eqb errno errno.EEXIST && path_isdir (w_fs w') directory)%bool
         then cached_name datadir filename w = (w', Ok fullpath)
         else cached_name datadir filename w = (w', Raised (OSError errno))
     end.
Proof.
  intros Hcwd fullpath directory w'. split; [| split].
  - now apply isabs_abspath.
  - apply join3_cache.
  - cbv beta iota zeta delta [cached_name bind os_makedirs emit observe ret raise].
    fold fullpath. fold directory. subst w'. cbn [w_fs w_events].
    destruct (makedirs (w_fs w) directory) as [f' [errno|]] eqn:Hmk; cbn [fst snd].
    + destruct (Z.eqb errno errno.EEXIST); simpl; [| reflexivity].
      destruct (path_isdir f' directory); reflexivity.
    + split; [reflexivity |]. eapply makedirs_isdir; eauto.
Qed.

(** ** search_file *)

Lemma search_extensions_find f directory filename extensions :
  Song.search_extensions f directory filename extensions
  = posixpath.abspath getcwd
      <$> List.find (path_isfile f)
            (map (fun extension => posixpath.join directory (filename +:+ extension))
                 extensions).
Proof.
  induction extensions as [|extension extensions IH]; simpl; [reflexivity |].
  destruct (path_isfile f _); [reflexivity | exact IH].
Qed.

Lemma find_app {A} (p : A -> bool) l1 l2 :
  List.find p (l1 ++ l2)
  = match List.find p l1 with
    | Some x => Some x
    | None => List.find p l2
    end.
Proof.
  induction l1 as [|x l1 IH]; simpl; [reflexivity |].
  destruct (p x); [reflexivity | exact IH].
Qed.

Lemma search_directories_find f filename extensions directories :
  Song.search_directories f filename extensions directories
  = posixpath.abspath getcwd
      <$> List.find (path_isfile f) (SongSpec.candidates filename extensions directories).
Proof.
  induction directories as [|directory directories IH]; simpl; [reflexivity |].
  rewrite search_extensions_find, find_app, IH.
  destruct (List.find _ (map _ extensions)); reflexivity.
Qed.

(** C6.  [search_file] tries the directory of the song first, then the
    given directories in their order, and in each directory the extensions
    in their order; it returns the absolute path of the first of these
    paths that is an existing file, and [None] when none is.  Without
    extensions it tries the bare name, and without directories the
    datadirs of the configuration. *)
Theorem search_file_first_existing (f : fs) (self : Song.t) (filename : string)
        (extensions directories : option (list string)) :
  Song.search_file f self filename extensions directories
  = posixpath.abspath getcwd
      <$> List.find (path_isfile f)
            (SongSpec.candidates filename
               (default [""] extensions)
               (posixpath.dirname (Song.fullpath self)
                  :: default (cfg_datadir (Song.config self)) directories)).
Proof.
  unfold Song.search_file. cbv zeta. apply search_directories_find.
Qed.

(** The first existing candidate, spelled out: every path tried before it
    is not a file. *)
Lemma search_file_found (f : fs) (self : Song.t) (filename : string)
      (extensions directories : option (list string)) found :
  Song.search_file f self filename extensions directories = Some found ->
  exists tried path later,
    SongSpec.candidates filename
      (default [""] extensions)
      (posixpath.dirname (Song.fullpath self)
         :: default (cfg_datadir (Song.config self)) directories)
    = tried ++ path :: later
    /\ Forall (fun p => path_isfile f p = false) tried
    /\ path_isfile f path = true
    /\ found = posixpath.abspath getcwd path.
Proof.
  unfold Song.search_file. cbv zeta. rewrite search_directories_find.
  change ([posixpath.dirname (Song.fullpath self)]
            ++ default (cfg_datadir (Song.config self)) directories)
    with (posixpath.dirname (Song.fullpath self)
            :: default (cfg_datadir (Song.config self)) directories).
  set (l := SongSpec.candidates _ _ _). clearbody l.
  induction l as [|p l IH]; simpl; [discriminate |].
  destruct (path_isfile f p) eqn:Hp.
  - intros [= <-]. exists [], p, l. auto.
  - intros Hfound. destruct (IH Hfound) as (tried & path & later & -> & Htried & Hpath & ->).
    exists (p :: tried), path, later. auto.
Qed.


(** ** The steps of the constructor *)

Lemma open_read_run path (w : World) :
  open_read path w
  = (mkWorld _ (w_fs w) (w_events w ++ [EvRead path]), read_file (w_fs w) path).
Proof. reflexivity. Qed.

Section Laws.
Context {laws : OSLaws os}.

(** Once the cache directory exists, [cached_name] leaves the file system
    as it is. *)
Lemma cached_name_stable datadir filename (w : World) :
  path_isdir (w_fs w) (SongSpec.cache_dir datadir filename) = true ->
  cached_name datadir filename w
  = (mkWorld _ (w_fs w) (w_events w ++ [EvMakedirs (SongSpec.cache_dir datadir filename)]),
     Ok (SongSpec.cache_path datadir filename)).
Proof.
  intros Hdir.
  cbv beta iota zeta delta [cached_name bind os_makedirs emit observe ret raise].
  unfold SongSpec.cache_dir, SongSpec.cache_path in *. cbn [w_fs w_events].
  rewrite (makedirs_existing _ _ Hdir). cbn. now rewrite Hdir.
Qed.

(** When [cached_name] returns, the cache directory exists. *)
Lemma cached_name_ok datadir filename (w w' : World) name :
  cached_name datadir filename w = (w', Ok name) ->
  name = SongSpec.cache_path datadir filename
  /\ path_isdir (w_fs w') (SongSpec.cache_dir datadir filename) = true.
Proof.
  cbv beta iota zeta delta [cached_name bind os_makedirs emit observe ret raise].
  unfold SongSpec.cache_dir, SongSpec.cache_path. cbn [w_fs w_events].
  destruct (makedirs (w_fs w) _) as [f' [errno|]] eqn:Hmk; simpl.
  - destruct (Z.eqb errno errno.EEXIST); [| discriminate].
    destruct (path_isdir _ _) eqn:Hdir; [| discriminate].
    intros [= <- <-]. split; [reflexivity | exact Hdir].
  - intros [= <- <-]. split; [reflexivity |]. eapply makedirs_isdir; eauto.
Qed.

End Laws.

(** ** Restoring and taking snapshots *)

Lemma restore_lookup (snap : gmap string pyval) attributes :
  forall self self',
    Song.restore (PDict snap) attributes self = Ok self' ->
    forall k,
      (In k attributes -> is_Some (snap !! k) /\ self' !! k = snap !! k)
      /\ (~ In k attributes -> self' !! k = self !! k).
Proof.
  induction attributes as [|a attributes IH]; intros self self'; simpl.
  - intros [= <-] k. split; [tauto | reflexivity].
  - destruct (snap !! a) as [v|] eqn:Ha; [| discriminate].
    intros Hr k. destruct (IH _ _ Hr k) as [Hin Hout].
    destruct (in_dec string_dec k attributes) as [Hk | Hk].
    + split; [intros _; auto | tauto].
    + split.
      * intros [-> | Hk']; [| tauto].
        rewrite (Hout Hk), lookup_insert_eq, Ha. eauto.
      * intros Hnot. rewrite (Hout Hk), lookup_insert_ne; [reflexivity | tauto].
Qed.

Lemma restore_complete (snap : gmap string pyval) attributes :
  (forall a, In a attributes -> is_Some (snap !! a)) ->
  forall self, exists self', Song.restore (PDict snap) attributes self = Ok self'.
Proof.
  induction attributes as [|a attributes IH]; intros Hall self; simpl; [eauto |].
  destruct (Hall a (or_introl eq_refl)) as [v ->].
  apply IH. intros a' Ha'. apply Hall. now right.
Qed.

Lemma restore_raises cached attributes attribute e :
  In attribute attributes ->
  getitem cached attribute = Raised e ->
  forall self, exists e', Song.restore cached attributes self = Raised e'.
Proof.
  induction attributes as [|a attributes IH]; simpl; [tauto |].
  intros [-> | Hin] He self.
  - rewrite He. eauto.
  - destruct (getitem cached a); eauto.
Qed.

Lemma snapshot_restore self attributes cached :
  (forall a, In a attributes -> is_Some (self !! a)) ->
  Song.snapshot self attributes cached = Song.restore (PDict self) attributes cached.
Proof.
  revert cached. induction attributes as [|a attributes IH]; intros cached Hall; simpl.
  - reflexivity.
  - destruct (Hall a (or_introl eq_refl)) as [v Hv]. rewrite Hv.
    apply IH. intros a' Ha'. apply Hall. now right.
Qed.

Lemma lookup_restored_in (snap : gmap string pyval) k :
  In k Song.cached_attributes -> SongSpec.restored snap !! k = snap !! k.
Proof.
  intros Hin. unfold SongSpec.restored. apply option_eq. intros v.
  rewrite map_lookup_filter_Some. simpl fst. tauto.
Qed.

Lemma lookup_restored_out (snap : gmap string pyval) k :
  ~ In k Song.cached_attributes -> SongSpec.restored snap !! k = None.
Proof.
  intros Hout. unfold SongSpec.restored. apply map_lookup_filter_None.
  right. intros v _. exact Hout.
Qed.

(** Restoring over a song that only has its hash gives the snapshot, cut
    down to the cached attributes. *)
Lemma restore_restored (snap : gmap string pyval) h self' :
  Song.restore (PDict snap) Song.cached_attributes {[ "_filehash" := h ]} = Ok self' ->
  self' = SongSpec.restored snap.
Proof.
  intros Hr. apply map_eq. intros k.
  destruct (restore_lookup _ _ _ _ Hr k) as [Hin Hout].
  destruct (in_dec string_dec k Song.cached_attributes) as [Hk | Hk].
  - rewrite (lookup_restored_in _ _ Hk). now destruct (Hin Hk).
  - rewrite (lookup_restored_out _ _ Hk), (Hout Hk). apply lookup_singleton_ne.
    intros <-. apply Hk. simpl. tauto.
Qed.

(** ** The constructor, case by case *)

Lemma after_after (w : World) e1 e2 :
  SongSpec.after (SongSpec.after w e1) e2 = SongSpec.after w (e1 ++ e2).
Proof. unfold SongSpec.after. simpl. now rewrite app_assoc. Qed.

Lemma complete_getitem (snap : gmap string pyval) attribute :
  SongSpec.complete snap -> In attribute Song.cached_attributes ->
  exists v, snap !! attribute = Some v /\ getitem (PDict snap) attribute = Ok v.
Proof.
  intros Hc Hin. destruct (Hc _ Hin) as [v Hv]. exists v. simpl. now rewrite Hv.
Qed.

Section Laws.
Context {laws : OSLaws os}.

Lemma cached_name_after datadir filename (w : World) :
  path_isdir (w_fs w) (SongSpec.cache_dir datadir filename) = true ->
  cached_name datadir filename w
  = (SongSpec.after w [EvMakedirs (SongSpec.cache_dir datadir filename)],
     Ok (SongSpec.cache_path datadir filename)).
Proof. apply cached_name_stable. Qed.

Lemma use_cached_read datadir subpath filehash self (w : World) :
  path_isdir (w_fs w) (SongSpec.cache_dir datadir subpath) = true ->
  Song.use_cached datadir subpath filehash self w
  = match read_file (w_fs w) (SongSpec.cache_path datadir subpath) with
    | Ok content =>
        (cached <- lift (pickle_loads content) ;;
         stored_hash <- lift (getitem cached "_filehash") ;;
         if py_eq_str stored_hash filehash then
           stored_version <- lift (getitem cached "_version") ;;
           if py_eq_int stored_version Song.CACHE_VERSION then
             self' <- lift (Song.restore cached Song.cached_attributes self) ;;
             ret (Some self')
           else ret None
         else ret None) (SongSpec.after w (SongSpec.attempt datadir subpath))
    | Raised e => (SongSpec.after w (SongSpec.attempt datadir subpath), Raised e)
    end.
Proof.
  intros Hdir. unfold Song.use_cached.
  rewrite (bind_run _ _ _ _ _ (cached_name_after _ _ _ Hdir)).
  unfold bind at 1. rewrite open_read_run. cbn [SongSpec.after w_fs w_events].
  rewrite <- app_assoc. reflexivity.
Qed.

Lemma use_cached_hit datadir subpath filehash content snap (w : World) :
  SongSpec.cache_file (w_fs w) datadir subpath content ->
  pickle_loads content = Ok (PDict snap) ->
  SongSpec.complete snap ->
  SongSpec.fresh snap filehash = true ->
  Song.use_cached datadir subpath filehash {[ "_filehash" := PStr filehash ]} w
  = (SongSpec.after w (SongSpec.attempt datadir subpath), Ok (Some (SongSpec.restored snap))).
Proof.
  intros (Hdir & _ & Hread) Hloads Hc Hfresh.
  rewrite (use_cached_read _ _ _ _ _ Hdir), Hread, Hloads, bind_lift_ok.
  unfold SongSpec.fresh in Hfresh.
  destruct (complete_getitem snap "_filehash" Hc) as (h & Hh & ->); [simpl; tauto |].
  destruct (complete_getitem snap "_version" Hc) as (v & Hv & Hgv); [simpl; tauto |].
  rewrite Hh, Hv in Hfresh. apply andb_prop in Hfresh as [Hh' Hv'].
  rewrite bind_lift_ok, Hh', Hgv, bind_lift_ok, Hv'.
  destruct (restore_complete snap Song.cached_attributes Hc {[ "_filehash" := PStr filehash ]})
    as [self' Hr].
  rewrite Hr, bind_lift_ok. rewrite (restore_restored _ _ _ Hr). reflexivity.
Qed.


Lemma use_cached_failure datadir subpath filehash self (w : World) :
  path_isdir (w_fs w) (SongSpec.cache_dir datadir subpath) = true ->
  SongSpec.load_failure (w_fs w) datadir subpath filehash ->
  exists e,
    Song.use_cached datadir subpath filehash self w
    = (SongSpec.after w (SongSpec.attempt datadir subpath), Raised e).
Proof.
  intros Hdir Hfail. rewrite (use_cached_read _ _ _ _ _ Hdir).
  destruct Hfail as [e Hread | content e Hread Hloads | content cached e Hread Hloads Hh
                     | content cached h e Hread Hloads Hh Heq Hv
                     | content cached h v attribute e Hread Hloads Hh Heq Hv Heqv Hin Ha];
    rewrite Hread; [eauto | rewrite Hloads; eauto | | |];
    rewrite Hloads, bind_lift_ok, Hh.
  - eauto.
  - rewrite bind_lift_ok, Heq, Hv. eauto.
  - rewrite bind_lift_ok, Heq, Hv, bind_lift_ok, Heqv.
    destruct (restore_raises cached _ _ _ Hin Ha self) as [e' ->]. eauto.
Qed.


Lemma load_run datadir subpath content (w : World) :
  read_file (w_fs w) (posixpath.join datadir subpath) = Ok content ->
  path_isdir (w_fs w) (SongSpec.cache_dir datadir subpath) = true ->
  Song.load datadir subpath (posixpath.join datadir subpath) w
  = (let self := {[ "_filehash" := PStr (md5_hexdigest content) ]} in
     if path_exists (w_fs w) (SongSpec.cache_path datadir subpath) then
       r <- try_except
              (Song.use_cached datadir subpath (md5_hexdigest content) self)
              (warning (Song.warning_message (posixpath.join datadir subpath)) ;;; ret None) ;;
       match r with
       | Some self' => ret (inl self')
       | None => ret (inr self)
       end
     else ret (inr self)) (SongSpec.after w (SongSpec.lookup_events datadir subpath)).
Proof.
  intros Hread Hdir. unfold Song.load.
  unfold bind at 1. rewrite open_read_run, Hread.
  erewrite bind_run by (apply cached_name_after; exact Hdir).
  unfold bind at 1, observe at 1. cbn [SongSpec.after w_fs w_events].
  f_equal. unfold SongSpec.after, SongSpec.lookup_events. simpl.
  now rewrite <- app_assoc.
Qed.

Lemma init_in_datadir subpath config datadir (w : World) :
  String.eqb datadir "" = false ->
  Song.__init__ subpath config (Some datadir) w
  = (r <- Song.load datadir subpath (posixpath.join datadir subpath) ;;
     match r with
     | inl self =>
         ret (Song.mk datadir (posixpath.join datadir subpath) (cfg_encoding config) config self)
     | inr self =>
         self' <- Song.extract subpath config datadir (posixpath.join datadir subpath) self ;;
         ret (Song.mk datadir (posixpath.join datadir subpath) (cfg_encoding config) config
                      self')
     end) w.
Proof. intros Hd. unfold Song.__init__, Song.truthy. now rewrite Hd. Qed.

(** A fresh snapshot is used, and the constructor returns at once. *)
Lemma init_hit subpath config datadir content cache snap (w : World) :
  String.eqb datadir "" = false ->
  read_file (w_fs w) (posixpath.join datadir subpath) = Ok content ->
  SongSpec.cache_file (w_fs w) datadir subpath cache ->
  pickle_loads cache = Ok (PDict snap) ->
  SongSpec.complete snap ->
  SongSpec.fresh snap (md5_hexdigest content) = true ->
  Song.__init__ subpath config (Some datadir) w
  = (SongSpec.after w (SongSpec.lookup_events datadir subpath
                         ++ SongSpec.attempt datadir subpath),
     Ok (Song.mk datadir (posixpath.join datadir subpath) (cfg_encoding config) config
                 (SongSpec.restored snap))).
Proof.
  intros Hd Hread Hfile Hloads Hc Hfresh.
  rewrite (init_in_datadir _ _ _ _ Hd). unfold bind at 1.
  rewrite (load_run _ _ _ _ Hread (proj1 Hfile)). cbv zeta.
  rewrite (proj1 (proj2 Hfile)).
  unfold bind at 1, try_except.
  rewrite (use_cached_hit datadir subpath _ cache snap); auto.
  now rewrite after_after.
Qed.


(** So is any unpickled object whose hash or version is not the expected
    one, whatever else it holds or lacks: the other keys are not read. *)
Lemma init_stale_silent subpath config datadir content cache cached (w : World) :
  String.eqb datadir "" = false ->
  read_file (w_fs w) (posixpath.join datadir subpath) = Ok content ->
  SongSpec.cache_file (w_fs w) datadir subpath cache ->
  pickle_loads cache = Ok cached ->
  SongSpec.stale cached (md5_hexdigest content) ->
  Song.__init__ subpath config (Some datadir) w
  = SongSpec.parse_and_store subpath config datadir (md5_hexdigest content)
      (SongSpec.after w (SongSpec.lookup_events datadir subpath
                           ++ SongSpec.attempt datadir subpath)).
Proof.
  intros Hd Hread Hfile Hloads (h & Hh & Hstale).
  rewrite (init_in_datadir _ _ _ _ Hd). unfold bind at 1.
  rewrite (load_run _ _ _ _ Hread (proj1 Hfile)). cbv zeta.
  rewrite (proj1 (proj2 Hfile)).
  unfold bind at 1, try_except.
  rewrite (use_cached_read _ _ _ _ (SongSpec.after w (SongSpec.lookup_events datadir subpath))
             (proj1 Hfile)).
  change (w_fs (SongSpec.after w (SongSpec.lookup_events datadir subpath))) with (w_fs w).
  rewrite (proj2 (proj2 Hfile)), Hloads, bind_lift_ok, Hh, bind_lift_ok.
  destruct Hstale as [-> | (-> & v & -> & Hv)].
  - unfold ret. now rewrite after_after.
  - rewrite bind_lift_ok, Hv. unfold ret. now rewrite after_after.
Qed.

(** A failure to use the cache file is logged, and the constructor goes on. *)
Lemma init_failure subpath config datadir content (w : World) :
  String.eqb datadir "" = false ->
  read_file (w_fs w) (posixpath.join datadir subpath) = Ok content ->
  path_isdir (w_fs w) (SongSpec.cache_dir datadir subpath) = true ->
  path_exists (w_fs w) (SongSpec.cache_path datadir subpath) = true ->
  SongSpec.load_failure (w_fs w) datadir subpath (md5_hexdigest content) ->
  Song.__init__ subpath config (Some datadir) w
  = SongSpec.parse_and_store subpath config datadir (md5_hexdigest content)
      (SongSpec.after w (SongSpec.lookup_events datadir subpath
                           ++ SongSpec.attempt datadir subpath
                           ++ [EvWarning (Song.warning_message (posixpath.join datadir subpath))])).
Proof.
  intros Hd Hread Hdir Hex Hfail.
  rewrite (init_in_datadir _ _ _ _ Hd). unfold bind at 1.
  rewrite (load_run _ _ _ _ Hread Hdir). cbv zeta. rewrite Hex.
  unfold bind at 1, try_except.
  destruct (use_cached_failure datadir subpath (md5_hexdigest content)
              {[ "_filehash" := PStr (md5_hexdigest content) ]}
              (SongSpec.after w (SongSpec.lookup_events datadir subpath)) Hdir Hfail)
    as [e ->].
  rewrite after_after. unfold warning, bind at 1, emit at 1, ret at 1.
  cbn [SongSpec.after w_fs w_events]. rewrite <- !app_assoc. reflexivity.
Qed.

(** A song in a datadir that has no cache file yet: a miss. *)
Lemma init_no_cache_file subpath config datadir content (w : World) :
  String.eqb datadir "" = false ->
  read_file (w_fs w) (posixpath.join datadir subpath) = Ok content ->
  path_isdir (w_fs w) (SongSpec.cache_dir datadir subpath) = true ->
  path_exists (w_fs w) (SongSpec.cache_path datadir subpath) = false ->
  Song.__init__ subpath config (Some datadir) w
  = SongSpec.parse_and_store subpath config datadir (md5_hexdigest content)
      (SongSpec.after w (SongSpec.lookup_events datadir subpath)).
Proof.
  intros Hd Hread Hdir Hex.
  rewrite (init_in_datadir _ _ _ _ Hd). unfold bind at 1.
  rewrite (load_run _ _ _ _ Hread Hdir). cbv zeta. now rewrite Hex.
Qed.

End Laws.

(** ** What a construction leaves behind *)

Ltac lookup_inserts :=
  repeat first [ rewrite lookup_insert_eq
               | rewrite lookup_insert_ne by discriminate
               | rewrite lookup_singleton_eq
               | rewrite lookup_singleton_ne by discriminate
               | rewrite lookup_empty ].

Lemma constructed_in h subpath parsed unprefixed processed k :
  In k Song.cached_attributes ->
  is_Some (SongSpec.constructed {[ "_filehash" := h ]} subpath parsed unprefixed processed !! k).
Proof.
  unfold SongSpec.constructed. simpl.
  intros [<- | [<- | [<- | [<- | [<- | [<- | [<- | [<- | [<- | []]]]]]]]]];
    lookup_inserts; eauto.
Qed.

Lemma constructed_out h subpath parsed unprefixed processed k :
  ~ In k Song.cached_attributes ->
  SongSpec.constructed {[ "_filehash" := h ]} subpath parsed unprefixed processed !! k = None.
Proof.
  unfold SongSpec.constructed. simpl. intros Hk.
  repeat (rewrite lookup_insert_ne by (intros <-; tauto)).
  apply lookup_singleton_ne. intros <-; tauto.
Qed.

(** The snapshot of a parsed song is the song's attributes. *)
Lemma snapshot_constructed h subpath parsed unprefixed processed :
  Song.snapshot (SongSpec.constructed {[ "_filehash" := h ]} subpath parsed unprefixed processed)
                Song.cached_attributes ∅
  = Ok (SongSpec.constructed {[ "_filehash" := h ]} subpath parsed unprefixed processed).
Proof.
  set (self := SongSpec.constructed _ _ _ _ _).
  assert (Hin : forall a, In a Song.cached_attributes -> is_Some (self !! a))
    by (intros a; apply constructed_in).
  rewrite (snapshot_restore _ _ _ Hin).
  destruct (restore_complete self Song.cached_attributes Hin ∅) as [snap Hr].
  rewrite Hr. f_equal. apply map_eq. intros k.
  destruct (restore_lookup _ _ _ _ Hr k) as [Hk Hout].
  destruct (in_dec string_dec k Song.cached_attributes) as [Hi | Hi].
  - now destruct (Hk Hi).
  - rewrite (Hout Hi), lookup_empty. symmetry. now apply constructed_out.
Qed.

(** What [extract] has done when it returns. *)
Lemma extract_ok_parsed subpath config datadir fullpath self (w w1 : World) self1 :
  Song.extract subpath config datadir fullpath self w = (w1, Ok self1) ->
  exists parsed unprefixed processed,
    Song._parse (w_fs w) fullpath (cfg_encoding config) config = Ok parsed
    /\ Song.unprefixed_titles (p_titles parsed) (cfg_titleprefixwords config) = Some unprefixed
    /\ Song.process_listauthors (p_authors parsed)
         (default (PDict ∅) (cfg_compiled_authwords config)) = Ok processed
    /\ self1 = SongSpec.constructed self subpath parsed unprefixed processed.
Proof.
  unfold Song.extract. unfold bind at 1.
  change (Song.parse fullpath (cfg_encoding config) config w)
    with (SongSpec.after w [EvParse fullpath],
          Song._parse (w_fs w) fullpath (cfg_encoding config) config).
  destruct (Song._parse _ _ _ _) as [parsed|e] eqn:Hp; [| discriminate].
  destruct (Song.unprefixed_titles _ _) as [unprefixed|] eqn:Hu; [| discriminate].
  rewrite bind_lift_ok.
  destruct (Song.process_listauthors _ _) as [processed|e] eqn:Ha; [| discriminate].
  rewrite bind_lift_ok.
  fold (SongSpec.constructed self subpath parsed unprefixed processed).
  intros Hk. apply bind_ok_inv in Hk as (w2 & [] & _ & Hret).
  injection Hret as _ <-.
  exists parsed, unprefixed, processed. auto.
Qed.

Section Laws.
Context {laws : OSLaws os}.

Lemma parse_run fullpath encoding config (w : World) :
  Song.parse fullpath encoding config w
  = (SongSpec.after w [EvParse fullpath], Song._parse (w_fs w) fullpath encoding config).
Proof. reflexivity. Qed.

Lemma write_cache_ok_inv datadir subpath self (w w1 : World) :
  String.eqb datadir "" = false ->
  path_isdir (w_fs w) (SongSpec.cache_dir datadir subpath) = true ->
  self !! "subpath" = Some (PStr subpath) ->
  Song._write_cache datadir self w = (w1, Ok tt) ->
  exists snap f1 b,
    Song.snapshot self Song.cached_attributes ∅ = Ok snap
    /\ write_file (w_fs w) (SongSpec.cache_path datadir subpath) [] = Ok f1
    /\ pickle_dumps (PDict snap) = Ok b
    /\ write_file f1 (SongSpec.cache_path datadir subpath) b = Ok (w_fs w1).
Proof.
  intros Hd Hdir Hsub. unfold Song._write_cache, Song.getattr_str.
  rewrite Hd, Hsub. cbn [negb].
  destruct (Song.snapshot self Song.cached_attributes ∅) as [snap|e] eqn:Hs; [| discriminate].
  rewrite !bind_lift_ok.
  rewrite (bind_run _ _ _ _ _ (cached_name_after _ _ _ Hdir)).
  unfold open_wb. unfold bind at 1 2, emit at 1. cbn [SongSpec.after w_fs w_events].
  destruct (write_file (w_fs w) _ []) as [f1|e] eqn:Hw1; [| discriminate].
  destruct (pickle_dumps (PDict snap)) as [b|e] eqn:Hdump; [| discriminate].
  rewrite bind_lift_ok. unfold file_write. cbn [w_fs w_events].
  destruct (write_file f1 _ b) as [f2|e] eqn:Hw2; [| discriminate].
  intros [= <-]. exists snap, f1, b. auto.
Qed.

Lemma extract_ok_inv subpath config datadir fullpath self (w w1 : World) self1 :
  String.eqb datadir "" = false ->
  path_isdir (w_fs w) (SongSpec.cache_dir datadir subpath) = true ->
  Song.extract subpath config datadir fullpath self w = (w1, Ok self1) ->
  exists parsed unprefixed processed snap f1 b,
    self1 = SongSpec.constructed self subpath parsed unprefixed processed
    /\ Song.snapshot self1 Song.cached_attributes ∅ = Ok snap
    /\ write_file (w_fs w) (SongSpec.cache_path datadir subpath) [] = Ok f1
    /\ pickle_dumps (PDict snap) = Ok b
    /\ write_file f1 (SongSpec.cache_path datadir subpath) b = Ok (w_fs w1).
Proof.
  intros Hd Hdir. unfold Song.extract.
  unfold bind at 1. rewrite parse_run.
  destruct (Song._parse _ _ _ _) as [parsed|e]; [| discriminate].
  destruct (Song.unprefixed_titles _ _) as [unprefixed|]; [| discriminate].
  rewrite bind_lift_ok.
  destruct (Song.process_listauthors _ _) as [processed|e]; [| discriminate].
  rewrite bind_lift_ok.
  fold (SongSpec.constructed self subpath parsed unprefixed processed).
  intros Hk. apply bind_ok_inv in Hk as (w2 & [] & Hwc & Hret).
  injection Hret as <- <-.
  apply (write_cache_ok_inv datadir subpath) in Hwc; auto.
  - destruct Hwc as (snap & f1 & b & Hs & Hw1 & Hdump & Hw2).
    exists parsed, unprefixed, processed, snap, f1, b. auto.
  - unfold SongSpec.constructed. now lookup_inserts.
Qed.

(** [_write_cache] when every step succeeds. *)
Lemma write_cache_run datadir subpath self snap b f1 f2 (w : World) :
  String.eqb datadir "" = false ->
  path_isdir (w_fs w) (SongSpec.cache_dir datadir subpath) = true ->
  self !! "subpath" = Some (PStr subpath) ->
  Song.snapshot self Song.cached_attributes ∅ = Ok snap ->
  pickle_dumps (PDict snap) = Ok b ->
  write_file (w_fs w) (SongSpec.cache_path datadir subpath) [] = Ok f1 ->
  write_file f1 (SongSpec.cache_path datadir subpath) b = Ok f2 ->
  Song._write_cache datadir self w
  = (mkWorld _ f2
       (w_events w ++ [ EvMakedirs (SongSpec.cache_dir datadir subpath);
                        EvWrite (SongSpec.cache_path datadir subpath) ]),
     Ok tt).
Proof.
  intros Hd Hdir Hsub Hs Hdump Hw1 Hw2. unfold Song._write_cache, Song.getattr_str.
  rewrite Hd, Hsub, Hs. cbn [negb].
  rewrite !bind_lift_ok.
  rewrite (bind_run _ _ _ _ _ (cached_name_after _ _ _ Hdir)).
  unfold open_wb. unfold bind at 1 2, emit at 1. cbn [SongSpec.after w_fs w_events].
  rewrite Hw1, Hdump, bind_lift_ok. unfold file_write. cbn [w_fs w_events].
  rewrite Hw2. now rewrite <- app_assoc.
Qed.

(** The constructor from the parse on, when every step succeeds. *)
Lemma extract_run subpath config datadir fullpath h parsed unprefixed processed b f1 f2
      (w : World) :
  String.eqb datadir "" = false ->
  path_isdir (w_fs w) (SongSpec.cache_dir datadir subpath) = true ->
  Song._parse (w_fs w) fullpath (cfg_encoding config) config = Ok parsed ->
  Song.unprefixed_titles (p_titles parsed) (cfg_titleprefixwords config) = Some unprefixed ->
  Song.process_listauthors (p_authors parsed)
    (default (PDict ∅) (cfg_compiled_authwords config)) = Ok processed ->
  pickle_dumps
    (PDict (SongSpec.constructed {[ "_filehash" := h ]} subpath parsed unprefixed processed))
  = Ok b ->
  write_file (w_fs w) (SongSpec.cache_path datadir subpath) [] = Ok f1 ->
  write_file f1 (SongSpec.cache_path datadir subpath) b = Ok f2 ->
  Song.extract subpath config datadir fullpath {[ "_filehash" := h ]} w
  = (mkWorld _ f2
       (w_events w ++ [ EvParse fullpath;
                        EvMakedirs (SongSpec.cache_dir datadir subpath);
                        EvWrite (SongSpec.cache_path datadir subpath) ]),
     Ok (SongSpec.constructed {[ "_filehash" := h ]} subpath parsed unprefixed processed)).
Proof.
  intros Hd Hdir Hp Hu Ha Hdump Hw1 Hw2. unfold Song.extract.
  unfold bind at 1. rewrite parse_run, Hp, Hu, bind_lift_ok, Ha, bind_lift_ok.
  fold (SongSpec.constructed {[ "_filehash" := h ]} subpath parsed unprefixed processed).
  set (self := SongSpec.constructed {[ "_filehash" := h ]} subpath parsed unprefixed processed)
    in *.
  rewrite (bind_run _ _ _ _ _
             (write_cache_run datadir subpath self self b f1 f2
                (SongSpec.after w [EvParse fullpath]) Hd Hdir
                ltac:(unfold self, SongSpec.constructed; now lookup_inserts)
                (snapshot_constructed _ _ _ _ _) Hdump Hw1 Hw2)).
  unfold ret. cbn [SongSpec.after w_fs w_events]. now rewrite <- app_assoc.
Qed.


Lemma use_cached_world datadir subpath filehash self (w w' : World) r :
  path_isdir (w_fs w) (SongSpec.cache_dir datadir subpath) = true ->
  Song.use_cached datadir subpath filehash self w = (w', r) ->
  w' = SongSpec.after w (SongSpec.attempt datadir subpath).
Proof.
  intros Hdir. rewrite (use_cached_read _ _ _ _ _ Hdir).
  destruct (read_file _ _) as [cache|e]; [| now intros [= <- _]].
  destruct (pickle_loads cache) as [cached|e]; [| now intros [= <- _]].
  rewrite bind_lift_ok.
  destruct (getitem cached "_filehash") as [h|e]; [| now intros [= <- _]].
  rewrite bind_lift_ok.
  destruct (py_eq_str h filehash); [| now intros [= <- _]].
  destruct (getitem cached "_version") as [v|e]; [| now intros [= <- _]].
  rewrite bind_lift_ok.
  destruct (py_eq_int v Song.CACHE_VERSION); [| now intros [= <- _]].
  destruct (Song.restore cached Song.cached_attributes self); now intros [= <- _].
Qed.

Lemma getitem_ok_inv cached key v :
  getitem cached key = Ok v -> exists snap, cached = PDict snap /\ snap !! key = Some v.
Proof.
  destruct cached as [| | | |snap]; simpl; try discriminate.
  destruct (snap !! key) as [v'|] eqn:Hk; [| discriminate].
  intros [= <-]. eauto.
Qed.

Lemma use_cached_inv datadir subpath filehash self (w w' : World) self' :
  path_isdir (w_fs w) (SongSpec.cache_dir datadir subpath) = true ->
  Song.use_cached datadir subpath filehash self w = (w', Ok (Some self')) ->
  exists cache snap,
    read_file (w_fs w) (SongSpec.cache_path datadir subpath) = Ok cache
    /\ pickle_loads cache = Ok (PDict snap)
    /\ SongSpec.fresh snap filehash = true
    /\ Song.restore (PDict snap) Song.cached_attributes self = Ok self'.
Proof.
  intros Hdir. rewrite (use_cached_read _ _ _ _ _ Hdir).
  destruct (read_file _ _) as [cache|e] eqn:Hrc; [| discriminate].
  destruct (pickle_loads cache) as [cached|e] eqn:Hl; [| discriminate].
  rewrite bind_lift_ok.
  destruct (getitem cached "_filehash") as [h|e] eqn:Hh; [| discriminate].
  rewrite bind_lift_ok.
  destruct (py_eq_str h filehash) eqn:Heq; [| discriminate].
  destruct (getitem cached "_version") as [v|e] eqn:Hv; [| discriminate].
  rewrite bind_lift_ok.
  destruct (py_eq_int v Song.CACHE_VERSION) eqn:Heqv; [| discriminate].
  destruct (Song.restore cached Song.cached_attributes self) as [s|e] eqn:Hr; [| discriminate].
  rewrite bind_lift_ok. intros [= _ <-].
  apply getitem_ok_inv in Hh as (snap & -> & Hh).
  apply getitem_ok_inv in Hv as (snap' & [= <-] & Hv).
  exists cache, snap. repeat split; auto.
  unfold SongSpec.fresh. now rewrite Hh, Hv, Heq, Heqv.
Qed.

Lemma restore_ok_complete (snap : gmap string pyval) self self' :
  Song.restore (PDict snap) Song.cached_attributes self = Ok self' -> SongSpec.complete snap.
Proof.
  intros Hr a Ha. now destruct (restore_lookup _ _ _ _ Hr a) as [[? _] _].
Qed.

(** What [load] found, when it returns. *)
Lemma load_ok_inv datadir subpath (w w0 : World) r :
  Song.load datadir subpath (posixpath.join datadir subpath) w = (w0, Ok r) ->
  exists content,
    read_file (w_fs w) (posixpath.join datadir subpath) = Ok content
    /\ path_isdir (w_fs w0) (SongSpec.cache_dir datadir subpath) = true
    /\ match r with
       | inr self => self = {[ "_filehash" := PStr (md5_hexdigest content) ]}
       | inl self' =>
           exists cache snap,
             SongSpec.cache_file (w_fs w0) datadir subpath cache
             /\ pickle_loads cache = Ok (PDict snap)
             /\ SongSpec.complete snap
             /\ SongSpec.fresh snap (md5_hexdigest content) = true
             /\ self' = SongSpec.restored snap
       end.
Proof.
  unfold Song.load. unfold bind at 1. rewrite open_read_run.
  destruct (read_file (w_fs w) _) as [content|e] eqn:Hread; [| discriminate].
  intros H. apply bind_ok_inv in H as (wb & name & Hcn & H).
  apply cached_name_ok in Hcn as [-> Hdir].
  exists content. split; [reflexivity |].
  unfold bind at 1, observe at 1 in H.
  destruct (path_exists (w_fs wb) _) eqn:Hex.
  - apply bind_ok_inv in H as (wc & ro & Htry & H).
    unfold try_except in Htry.
    destruct (Song.use_cached _ _ _ _ wb) as [w' [ro'|e]] eqn:Huc.
    + injection Htry as <- <-.
      pose proof (use_cached_world _ _ _ _ _ _ _ Hdir Huc) as ->.
      destruct ro' as [self'|]; injection H as <- <-; (split; [exact Hdir |]); [| reflexivity].
      apply use_cached_inv in Huc as (cache & snap & Hrc & Hl & Hf & Hr); [| exact Hdir].
      exists cache, snap. repeat split; auto.
      * eapply restore_ok_complete; eauto.
      * eapply restore_restored; eauto.
    + pose proof (use_cached_world _ _ _ _ _ _ _ Hdir Huc) as ->.
      injection Htry as <- <-. injection H as <- <-. split; [exact Hdir | reflexivity].
  - injection H as <- <-. split; [exact Hdir | reflexivity].
Qed.

(** After a construction that returned, the cache holds a fresh snapshot
    of the attributes of the song. *)
Lemma init_ok_cached subpath config datadir (w w1 : World) song :
  String.eqb datadir "" = false ->
  Song.__init__ subpath config (Some datadir) w = (w1, Ok song) ->
  (forall b, pickle_dumps (PDict (Song.attrs song)) = Ok b ->
             pickle_loads b = Ok (PDict (Song.attrs song))) ->
  song = Song.mk datadir (posixpath.join datadir subpath) (cfg_encoding config) config
                 (Song.attrs song)
  /\ exists content cache snap,
      read_file (w_fs w) (posixpath.join datadir subpath) = Ok content
      /\ SongSpec.cache_file (w_fs w1) datadir subpath cache
      /\ pickle_loads cache = Ok (PDict snap)
      /\ SongSpec.complete snap
      /\ SongSpec.fresh snap (md5_hexdigest content) = true
      /\ SongSpec.restored snap = Song.attrs song.
Proof.
  intros Hd Hinit Hpickle. rewrite (init_in_datadir _ _ _ _ Hd) in Hinit.
  apply bind_ok_inv in Hinit as (w0 & r & Hload & Hk).
  apply load_ok_inv in Hload as (content & Hread & Hdir & Hr).
  destruct r as [self' | self].
  - injection Hk as <- <-. split; [reflexivity |].
    destruct Hr as (cache & snap & Hfile & Hl & Hc & Hf & ->).
    exists content, cache, snap. auto 10.
  - subst self. apply bind_ok_inv in Hk as (w2 & self1 & Hext & Hret).
    injection Hret as <- <-. split; [reflexivity |]. simpl in Hpickle.
    apply extract_ok_inv in Hext
      as (parsed & unprefixed & processed & snap & f1 & b & -> & Hs & Hw1 & Hdump & Hw2);
      auto.
    rewrite snapshot_constructed in Hs. injection Hs as <-.
    set (self1 := SongSpec.constructed _ _ _ _ _) in *.
    exists content, b, self1. simpl.
    destruct (write_then_read _ _ _ _ Hw2) as [Hex Hrd].
    repeat split; auto.
    + rewrite (write_keeps_dirs _ _ _ _ _ Hw2), (write_keeps_dirs _ _ _ _ _ Hw1). exact Hdir.
    + intros a. apply constructed_in.
    + unfold SongSpec.fresh, self1, SongSpec.constructed. lookup_inserts.
      simpl. now rewrite String.eqb_refl.
Qed.

End Laws.

(** ** The log is written, never read *)

Create HintDb log_blind.

Lemma log_blind_ret {A} (a : A) : SongSpec.log_blind (ret a).
Proof. intros w1 w2 Hfs. simpl. auto. Qed.

Lemma log_blind_raise {A} e : SongSpec.log_blind (raise (A := A) e).
Proof. intros w1 w2 Hfs. simpl. auto. Qed.

Lemma log_blind_lift {A} (r : result A) : SongSpec.log_blind (lift r).
Proof. intros w1 w2 Hfs. simpl. auto. Qed.

Lemma log_blind_emit e : SongSpec.log_blind (emit e).
Proof. intros w1 w2 Hfs. simpl. auto. Qed.

Lemma log_blind_observe {A} (q : fs -> A) : SongSpec.log_blind (observe q).
Proof. intros w1 w2 Hfs. simpl. rewrite Hfs. auto. Qed.

Lemma log_blind_bind {A B} (m : M A) (k : A -> M B) :
  SongSpec.log_blind m -> (forall a, SongSpec.log_blind (k a)) -> SongSpec.log_blind (bind m k).
Proof.
  intros Hm Hk w1 w2 Hfs. unfold bind.
  destruct (Hm w1 w2 Hfs) as [Hfs' Hr].
  destruct (m w1) as [w1' r1], (m w2) as [w2' r2]. simpl in Hfs', Hr. subst r2.
  destruct r1 as [a|e]; [now apply Hk | auto].
Qed.

Lemma log_blind_try_except {A} (m handler : M A) :
  SongSpec.log_blind m -> SongSpec.log_blind handler -> SongSpec.log_blind (try_except m handler).
Proof.
  intros Hm Hh w1 w2 Hfs. unfold try_except.
  destruct (Hm w1 w2 Hfs) as [Hfs' Hr].
  destruct (m w1) as [w1' r1], (m w2) as [w2' r2]. simpl in Hfs', Hr. subst r2.
  destruct r1 as [a|e]; [auto | now apply Hh].
Qed.

Lemma log_blind_read (path : string) :
  SongSpec.log_blind (fun w : World => (w, read_file (w_fs w) path)).
Proof. intros w1 w2 Hfs. simpl. rewrite Hfs. auto. Qed.

Lemma log_blind_file_write path content : SongSpec.log_blind (file_write path content).
Proof.
  intros w1 w2 Hfs. unfold file_write. rewrite Hfs.
  destruct (write_file (w_fs w2) path content); simpl; auto.
Qed.

Lemma log_blind_makedirs (directory : string) :
  SongSpec.log_blind
    (fun w : World =>
       let '(f', error) := makedirs (w_fs w) directory in
       (mkWorld _ f' (w_events w), Ok error)).
Proof.
  intros w1 w2 Hfs. rewrite Hfs. destruct (makedirs (w_fs w2) directory); simpl; auto.
Qed.

Lemma log_blind_parse fullpath encoding (config : Config) :
  SongSpec.log_blind
    (fun w : World => (w, Song._parse (w_fs w) fullpath encoding config)).
Proof. intros w1 w2 Hfs. simpl. rewrite Hfs. auto. Qed.

#[local] Hint Resolve log_blind_ret log_blind_raise log_blind_lift log_blind_emit
  log_blind_observe log_blind_try_except log_blind_read log_blind_file_write
  log_blind_makedirs log_blind_parse : log_blind.

Ltac log_blind :=
  repeat first
    [ apply log_blind_bind; [| intros ?]
    | match goal with
      | |- SongSpec.log_blind (match ?x with _ => _ end) => destruct x
      end
    | solve [eauto with log_blind] ].

Lemma log_blind_cached_name datadir filename :
  SongSpec.log_blind (cached_name datadir filename).
Proof. unfold cached_name, os_makedirs. log_blind. Qed.

#[local] Hint Resolve log_blind_cached_name : log_blind.

Lemma log_blind_write_cache datadir self : SongSpec.log_blind (Song._write_cache datadir self).
Proof. unfold Song._write_cache, open_wb. log_blind. Qed.

#[local] Hint Resolve log_blind_write_cache : log_blind.

(** What the constructor does on a miss does not depend on the log. *)
Lemma log_blind_parse_and_store subpath config datadir filehash :
  SongSpec.log_blind (SongSpec.parse_and_store subpath config datadir filehash).
Proof.
  unfold SongSpec.parse_and_store, Song.extract, Song.parse. cbv zeta. log_blind.
Qed.

(** ** The cache pipeline *)

Section Laws.
Context {laws : OSLaws os}.

Lemma eqb_empty_false datadir : datadir <> "" -> String.eqb datadir "" = false.
Proof. intros Hd. now apply String.eqb_neq. Qed.

(** A second construction, with any configuration, on the world that a
    first construction left: a cache hit that restores the attributes of
    the first song. *)
Lemma second_construction subpath config config' datadir (w w1 : World) song :
  datadir <> "" ->
  Song.__init__ subpath config (Some datadir) w = (w1, Ok song) ->
  read_file (w_fs w1) (posixpath.join datadir subpath)
  = read_file (w_fs w) (posixpath.join datadir subpath) ->
  (forall b, pickle_dumps (PDict (Song.attrs song)) = Ok b ->
             pickle_loads b = Ok (PDict (Song.attrs song))) ->
  Song.__init__ subpath config' (Some datadir) w1
  = (SongSpec.after w1 (SongSpec.lookup_events datadir subpath
                          ++ SongSpec.attempt datadir subpath),
     Ok (Song.mk datadir (posixpath.join datadir subpath) (cfg_encoding config') config'
                 (Song.attrs song))).
Proof.
  intros Hd Hinit Hsame Hpickle. apply eqb_empty_false in Hd.
  destruct (init_ok_cached _ _ _ _ _ _ Hd Hinit Hpickle)
    as (_ & content & cache & snap & Hread & Hfile & Hl & Hc & Hf & <-).
  rewrite <- Hsame in Hread.
  now apply (init_hit subpath config' datadir content cache snap).
Qed.

Lemma write_cache_trace datadir subpath self (w w' : World) r :
  path_isdir (w_fs w) (SongSpec.cache_dir datadir subpath) = true ->
  self !! "subpath" = Some (PStr subpath) ->
  Song._write_cache datadir self w = (w', r) ->
  exists tail,
    w_events w' = w_events w ++ tail
    /\ (w_fs w' = w_fs w \/ In (EvWrite (SongSpec.cache_path datadir subpath)) tail).
Proof.
  intros Hdir Hsub. unfold Song._write_cache, Song.getattr_str. rewrite Hsub.
  destruct (negb (String.eqb datadir "")).
  2:{ intros [= <- _]. exists []. rewrite app_nil_r. auto. }
  destruct (Song.snapshot self Song.cached_attributes ∅) as [snap|e].
  2:{ intros [= <- _]. exists []. rewrite app_nil_r. auto. }
  rewrite !bind_lift_ok.
  rewrite (bind_run _ _ _ _ _ (cached_name_after _ _ _ Hdir)).
  unfold open_wb. unfold bind at 1 2, emit at 1. cbn [SongSpec.after w_fs w_events].
  set (tail := [EvMakedirs (SongSpec.cache_dir datadir subpath);
                EvWrite (SongSpec.cache_path datadir subpath)]).
  assert (Htail : forall (f : fs) (_ : unit),
             exists tail0,
               w_events (mkWorld _ f ((w_events w ++ [EvMakedirs (SongSpec.cache_dir datadir subpath)])
                                        ++ [EvWrite (SongSpec.cache_path datadir subpath)]))
               = w_events w ++ tail0
               /\ (f = w_fs w \/ In (EvWrite (SongSpec.cache_path datadir subpath)) tail0)).
  { intros f _. exists tail. simpl. rewrite <- app_assoc. split; [reflexivity |].
    right. simpl. auto. }
  destruct (write_file (w_fs w) _ []) as [f1|e].
  2:{ intros [= <- _]. apply (Htail _ tt). }
  destruct (pickle_dumps (PDict snap)) as [b|e].
  2:{ rewrite bind_lift_raised. intros [= <- _]. apply (Htail _ tt). }
  rewrite bind_lift_ok. unfold file_write. cbn [w_fs w_events].
  destruct (write_file f1 _ b) as [f2|e]; intros [= <- _]; apply (Htail _ tt).
Qed.

(** On a miss the parser runs first, and the file system stays as it is
    until the cache file is opened for writing. *)
Lemma parse_and_store_trace subpath config datadir filehash (w w' : World) r :
  path_isdir (w_fs w) (SongSpec.cache_dir datadir subpath) = true ->
  SongSpec.parse_and_store subpath config datadir filehash w = (w', r) ->
  exists tail,
    w_events w' = w_events w ++ EvParse (posixpath.join datadir subpath) :: tail
    /\ (w_fs w' = w_fs w \/ In (EvWrite (SongSpec.cache_path datadir subpath)) tail).
Proof.
  intros Hdir. unfold SongSpec.parse_and_store, Song.extract. cbv zeta.
  unfold bind at 1 2. rewrite parse_run.
  assert (Hnil : exists tail,
             w_events (SongSpec.after w [EvParse (posixpath.join datadir subpath)])
             = w_events w ++ EvParse (posixpath.join datadir subpath) :: tail
             /\ (w_fs (SongSpec.after w [EvParse (posixpath.join datadir subpath)]) = w_fs w
                 \/ In (EvWrite (SongSpec.cache_path datadir subpath)) tail))
    by (exists []; simpl; auto).
  destruct (Song._parse _ _ _ _) as [parsed|e]; [| now intros [= <- _]].
  destruct (Song.unprefixed_titles _ _) as [unprefixed|];
    [| rewrite bind_lift_raised; now intros [= <- _]].
  rewrite bind_lift_ok.
  destruct (Song.process_listauthors _ _) as [processed|e];
    [| rewrite bind_lift_raised; now intros [= <- _]].
  rewrite bind_lift_ok. unfold bind at 1.
  destruct (Song._write_cache _ _ _) as [w2 r2] eqn:Hwc.
  apply (write_cache_trace datadir subpath) in Hwc; [| exact Hdir | now lookup_inserts].
  destruct Hwc as (tail & Hev & Hfs). simpl in Hev, Hfs.
  intros Hres. assert (w' = w2) as -> by (destruct r2 as [[]|]; now injection Hres).
  exists tail. rewrite Hev, <- app_assoc. auto.
Qed.


(** C1.  A song in a datadir is built, the construction returns, and the
    song is built again from the same file, unchanged.  The first
    construction leaves a cache file that unpickles to a snapshot holding
    the attributes of its song.  The second construction is a cache hit:
    it reads the song file and that cache file, and does nothing else: it
    does not call the parser, it writes nothing; and it returns the song
    of the first construction, whose titles, authors, data and languages
    are set.  The snapshot of the song is taken to survive pickling. *)
Theorem cache_round_trip (subpath : string) (config : Config) (datadir : string)
        (w w1 : World) (song : Song.t) :
  datadir <> "" ->
  Song.__init__ subpath config (Some datadir) w = (w1, Ok song) ->
  read_file (w_fs w1) (posixpath.join datadir subpath)
  = read_file (w_fs w) (posixpath.join datadir subpath) ->
  (forall b, pickle_dumps (PDict (Song.attrs song)) = Ok b ->
             pickle_loads b = Ok (PDict (Song.attrs song))) ->
  (exists cache snap,
      SongSpec.cache_file (w_fs w1) datadir subpath cache
      /\ pickle_loads cache = Ok (PDict snap)
      /\ SongSpec.restored snap = Song.attrs song)
  /\ Song.__init__ subpath config (Some datadir) w1
     = (mkWorld _ (w_fs w1)
          (w_events w1 ++ [ EvRead (posixpath.join datadir subpath);
                            EvMakedirs (SongSpec.cache_dir datadir subpath);
                            EvMakedirs (SongSpec.cache_dir datadir subpath);
                            EvRead (SongSpec.cache_path datadir subpath) ]),
        Ok song)
  /\ is_Some (Song.attrs song !! "titles")
  /\ is_Some (Song.attrs song !! "authors")
  /\ is_Some (Song.attrs song !! "data")
  /\ is_Some (Song.attrs song !! "languages").
Proof.
  intros Hd Hinit Hsame Hpickle.
  pose proof (second_construction subpath config config datadir w w1 song
                Hd Hinit Hsame Hpickle) as Hsecond.
  destruct (init_ok_cached _ _ _ _ _ _ (eqb_empty_false _ Hd) Hinit Hpickle)
    as (Hsong & content & cache & snap & _ & Hfile & Hl & Hc & _ & Hres).
  split; [exists cache, snap; auto |].
  split; [rewrite Hsecond, <- Hsong; reflexivity |].
  assert (Hin : forall a, In a Song.cached_attributes -> is_Some (Song.attrs song !! a)).
  { intros a Ha. rewrite <- Hres, (lookup_restored_in _ _ Ha). now apply Hc. }
  repeat split; apply Hin; simpl; tauto.
Qed.


(** C3.  The cache file of a song is there, and its use fails: it cannot
    be read, or unpickled, or a key that is read is missing.  The
    constructor does not raise for that: it logs the warning that names
    the path of the song, and goes on as on a miss, with the result and
    the file system that it ends with when there is no cache file.  After
    the warning the parser is called, on the file of the song: when it
    raises, or when the post-processing raises, that exception is the one
    of the constructor; and else, the pickling and the writing going
    well, the song is the parsed and post-processed one, and the cache
    file is written over with the pickle of its attributes. *)
Theorem cache_failure_is_a_miss (subpath : string) (config : Config) (datadir : string)
        (content : bytes) (w : World) :
  datadir <> "" ->
  read_file (w_fs w) (posixpath.join datadir subpath) = Ok content ->
  path_isdir (w_fs w) (SongSpec.cache_dir datadir subpath) = true ->
  path_exists (w_fs w) (SongSpec.cache_path datadir subpath) = true ->
  SongSpec.load_failure (w_fs w) datadir subpath (md5_hexdigest content) ->
  let fullpath := posixpath.join datadir subpath in
  let run := Song.__init__ subpath config (Some datadir) w in
  let miss :=
    SongSpec.parse_and_store subpath config datadir (md5_hexdigest content)
      (SongSpec.after w (SongSpec.lookup_events datadir subpath)) in
  let warned :=
    SongSpec.after w
      (SongSpec.lookup_events datadir subpath
         ++ SongSpec.attempt datadir subpath
         ++ [EvWarning ("Could not use cached version of " +:+ fullpath +:+ ".")]) in
  (run = SongSpec.parse_and_store subpath config datadir (md5_hexdigest content) warned
   /\ snd run = snd miss
   /\ w_fs (fst run) = w_fs (fst miss))
  /\ (exists tail, w_events (fst run) = w_events warned ++ EvParse fullpath :: tail)
  /\ match Song._parse (w_fs w) fullpath (cfg_encoding config) config with
     | Raised e => run = (SongSpec.after warned [EvParse fullpath], Raised e)
     | Ok parsed =>
         match Song.unprefixed_titles (p_titles parsed) (cfg_titleprefixwords config) with
         | None => run = (SongSpec.after warned [EvParse fullpath], Raised Unmodelled)
         | Some unprefixed =>
             match Song.process_listauthors (p_authors parsed)
                     (default (PDict ∅) (cfg_compiled_authwords config)) with
             | Raised e => run = (SongSpec.after warned [EvParse fullpath], Raised e)
             | Ok processed =>
                 forall b f1 f2,
                   pickle_dumps
                     (PDict (SongSpec.constructed
                               {[ "_filehash" := PStr (md5_hexdigest content) ]}
                               subpath parsed unprefixed processed)) = Ok b ->
                   write_file (w_fs w) (SongSpec.cache_path datadir subpath) [] = Ok f1 ->
                   write_file f1 (SongSpec.cache_path datadir subpath) b = Ok f2 ->
                   run
                   = (mkWorld _ f2
                        (w_events warned
                           ++ [ EvParse fullpath;
                                EvMakedirs (SongSpec.cache_dir datadir subpath);
                                EvWrite (SongSpec.cache_path datadir subpath) ]),
                      Ok (Song.mk datadir fullpath (cfg_encoding config) config
                            (SongSpec.constructed
                               {[ "_filehash" := PStr (md5_hexdigest content) ]}
                               subpath parsed unprefixed processed)))
                   /\ SongSpec.cache_file f2 datadir subpath b
             end
         end
     end.
Proof.
  intros Hd Hread Hdir Hex Hfail fullpath run miss warned.
  assert (Hinit : run = SongSpec.parse_and_store subpath config datadir
                          (md5_hexdigest content) warned)
    by exact (init_failure subpath config datadir content w
                (eqb_empty_false _ Hd) Hread Hdir Hex Hfail).
  split; [| split].
  - split; [exact Hinit |]. rewrite Hinit.
    destruct (log_blind_parse_and_store subpath config datadir (md5_hexdigest content)
                warned (SongSpec.after w (SongSpec.lookup_events datadir subpath)) eq_refl)
      as [Hfs Hres].
    split; [exact Hres | exact Hfs].
  - destruct (parse_and_store_trace subpath config datadir (md5_hexdigest content)
                warned (fst run) (snd run) Hdir) as (tail & Hev & _).
    + rewrite <- Hinit. apply surjective_pairing.
    + exists tail. exact Hev.
  - rewrite Hinit. unfold SongSpec.parse_and_store.
    destruct (Song._parse (w_fs w) fullpath (cfg_encoding config) config)
      as [parsed|e] eqn:Hp.
    2:{ unfold Song.extract. unfold bind at 1. unfold bind at 1.
        rewrite parse_run. change (w_fs warned) with (w_fs w). fold fullpath. now rewrite Hp. }
    destruct (Song.unprefixed_titles _ _) as [unprefixed|] eqn:Hu.
    2:{ unfold Song.extract. unfold bind at 1. unfold bind at 1.
        rewrite parse_run. change (w_fs warned) with (w_fs w). fold fullpath.
        rewrite Hp, Hu. now rewrite bind_lift_raised. }
    destruct (Song.process_listauthors _ _) as [processed|e] eqn:Ha.
    2:{ unfold Song.extract. unfold bind at 1. unfold bind at 1.
        rewrite parse_run. change (w_fs warned) with (w_fs w). fold fullpath.
        rewrite Hp, Hu, bind_lift_ok, Ha. now rewrite bind_lift_raised. }
    intros b f1 f2 Hdump Hw1 Hw2. split.
    + erewrite bind_run; [reflexivity |].
      apply (extract_run subpath config datadir fullpath _ parsed unprefixed processed b f1 f2);
        auto using eqb_empty_false.
    + destruct (write_then_read _ _ _ _ Hw2) as [Hex2 Hrd2].
      repeat split; auto.
      rewrite (write_keeps_dirs _ _ _ _ _ Hw2), (write_keeps_dirs _ _ _ _ _ Hw1). exact Hdir.
Qed.

(** C10.  A song in a datadir is built with one configuration, and built
    again from the same file, unchanged, with any other configuration.
    The second construction is a cache hit whatever the configuration: it
    reads the song file and the cache file that the first one left, it
    does not call the parser, and the cached attributes of its song,
    unprefixed titles and authors among them, are those of the first song,
    restored from the cache file: the title prefixes and the author
    options of the second configuration are not applied.  When the first
    construction found no cache file, these are the titles without the
    prefixes of the first configuration, and the authors processed with
    its options. *)
Theorem cache_ignores_config (subpath : string) (config config' : Config) (datadir : string)
        (w w1 : World) (song : Song.t) :
  datadir <> "" ->
  Song.__init__ subpath config (Some datadir) w = (w1, Ok song) ->
  read_file (w_fs w1) (posixpath.join datadir subpath)
  = read_file (w_fs w) (posixpath.join datadir subpath) ->
  (forall b, pickle_dumps (PDict (Song.attrs song)) = Ok b ->
             pickle_loads b = Ok (PDict (Song.attrs song))) ->
  (exists cache snap,
      SongSpec.cache_file (w_fs w1) datadir subpath cache
      /\ pickle_loads cache = Ok (PDict snap)
      /\ SongSpec.restored snap = Song.attrs song)
  /\ Song.__init__ subpath config' (Some datadir) w1
     = (mkWorld _ (w_fs w1)
          (w_events w1 ++ [ EvRead (posixpath.join datadir subpath);
                            EvMakedirs (SongSpec.cache_dir datadir subpath);
                            EvMakedirs (SongSpec.cache_dir datadir subpath);
                            EvRead (SongSpec.cache_path datadir subpath) ]),
        Ok (Song.mk datadir (posixpath.join datadir subpath) (cfg_encoding config') config'
                    (Song.attrs song)))
  /\ is_Some (Song.attrs song !! "unprefixed_titles")
  /\ is_Some (Song.attrs song !! "authors")
  /\ (path_isdir (w_fs w) (SongSpec.cache_dir datadir subpath) = true ->
      path_exists (w_fs w) (SongSpec.cache_path datadir subpath) = false ->
      exists parsed unprefixed processed,
        Song._parse (w_fs w) (posixpath.join datadir subpath) (cfg_encoding config) config
        = Ok parsed
        /\ Song.unprefixed_titles (p_titles parsed) (cfg_titleprefixwords config)
           = Some unprefixed
        /\ Song.process_listauthors (p_authors parsed)
             (default (PDict ∅) (cfg_compiled_authwords config)) = Ok processed
        /\ Song.attrs song !! "unprefixed_titles" = Some (Song.str_list unprefixed)
        /\ Song.attrs song !! "authors" = Some processed).
Proof.
  intros Hd Hinit Hsame Hpickle.
  pose proof (second_construction subpath config config' datadir w w1 song
                Hd Hinit Hsame Hpickle) as Hsecond.
  destruct (init_ok_cached _ _ _ _ _ _ (eqb_empty_false _ Hd) Hinit Hpickle)
    as (Hsong & content & cache & snap & Hread & Hfile & Hl & Hc & _ & Hres).
  split; [exists cache, snap; auto |].
  split; [exact Hsecond |].
  assert (Hin : forall a, In a Song.cached_attributes -> is_Some (Song.attrs song !! a)).
  { intros a Ha. rewrite <- Hres, (lookup_restored_in _ _ Ha). now apply Hc. }
  split; [apply Hin; simpl; tauto |]. split; [apply Hin; simpl; tauto |].
  intros Hdir Hnone.
  rewrite (init_no_cache_file _ _ _ _ _ (eqb_empty_false _ Hd) Hread Hdir Hnone) in Hinit.
  unfold SongSpec.parse_and_store in Hinit.
  apply bind_ok_inv in Hinit as (w2 & self1 & Hext & Hret).
  injection Hret as _ <-. cbn [Song.attrs].
  apply extract_ok_parsed in Hext as (parsed & unprefixed & processed & Hp & Hu & Ha & ->).
  exists parsed, unprefixed, processed. unfold SongSpec.constructed.
  refine (conj Hp (conj Hu (conj Ha (conj _ _)))); now lookup_inserts.
Qed.

End Laws.
End Properties.

(** ** The file system in memory is a file system *)

Lemma MemFS_lookup_insert (m : gmap string MemFS.entry) k e :
  String.eqb k "/" = false -> MemFS.lookup_key (<[k := e]> m) k = Some e.
Proof. intros Hk. unfold MemFS.lookup_key. now rewrite Hk, lookup_insert_eq. Qed.

Lemma MemFS_lookup_insert_ne (m : gmap string MemFS.entry) k q e :
  k <> q -> MemFS.lookup_key (<[k := e]> m) q = MemFS.lookup_key m q.
Proof. intros Hk. unfold MemFS.lookup_key. now rewrite lookup_insert_ne. Qed.

Lemma MemFS_lookup_none (m : gmap string MemFS.entry) k :
  MemFS.lookup_key m k = None -> String.eqb k "/" = false.
Proof. unfold MemFS.lookup_key. destruct (String.eqb k "/"); [discriminate | reflexivity]. Qed.

Lemma MemFS_laws cwd : OSLaws (MemFS.os cwd).
Proof.
  split; simpl.
  - intros m m' d. unfold MemFS.mkdirs, MemFS.isdir.
    destruct (MemFS.lookup_key m (MemFS.key cwd d)) eqn:Hk; [discriminate |].
    destruct (MemFS.create m _) as [m''|]; [| discriminate].
    intros [= <-]. now rewrite (MemFS_lookup_insert _ _ _ (MemFS_lookup_none _ _ Hk)).
  - intros m d. unfold MemFS.mkdirs, MemFS.isdir.
    destruct (MemFS.lookup_key m (MemFS.key cwd d)) as [[|]|]; try discriminate. reflexivity.
  - intros m m' p b. unfold MemFS.write, MemFS.exists_, MemFS.read.
    destruct (MemFS.lookup_key m (MemFS.key cwd p)) as [[content|]|] eqn:Hp;
      try discriminate;
      (destruct (MemFS.lookup_key m (posixpath.dirname _)) as [[|]|]; try discriminate);
      intros [= <-];
      assert (Hroot : String.eqb (MemFS.key cwd p) "/" = false)
        by (unfold MemFS.lookup_key in Hp; destruct (String.eqb _ "/"); congruence);
      now rewrite (MemFS_lookup_insert _ _ _ Hroot).
  - intros m m' p b d. unfold MemFS.write, MemFS.isdir.
    destruct (MemFS.lookup_key m (MemFS.key cwd p)) as [[content|]|] eqn:Hp;
      try discriminate;
      (destruct (MemFS.lookup_key m (posixpath.dirname _)) as [[|]|]; try discriminate);
      intros [= <-];
      assert (Hroot : String.eqb (MemFS.key cwd p) "/" = false)
        by (unfold MemFS.lookup_key in Hp; destruct (String.eqb _ "/"); congruence);
      (destruct (string_dec (MemFS.key cwd p) (MemFS.key cwd d)) as [<- | Hne];
       [ now rewrite (MemFS_lookup_insert _ _ _ Hroot), Hp
       | now rewrite (MemFS_lookup_insert_ne _ _ _ _ Hne) ]).
Qed.

(** ** The module at work *)

(** A first construction parses and stores; a second one reads the cache. *)
Example first_construction_events :
  w_events Examples.world1
  = [ EvRead "data/songs/a.sg";
      EvMakedirs "/srv/book/data/.cache/songs";
      EvParse "data/songs/a.sg";
      EvMakedirs "/srv/book/data/.cache/songs";
      EvWrite "/srv/book/data/.cache/songs/a.sg" ].
Proof. vm_compute. reflexivity. Qed.

Example first_construction_song :
  Examples.first_run = (Examples.world1, Ok Examples.song1)
  /\ Song.attrs Examples.song1 !! "titles" = Some (PList [PStr "The Song"])
  /\ Song.attrs Examples.song1 !! "unprefixed_titles" = Some (PList [PStr "Song"])
  /\ Song.attrs Examples.song1 !! "_version" = Some (PInt 2).
Proof. repeat split; vm_compute; reflexivity. Qed.

(** The serialization of the examples gives back the snapshot of the song. *)
Lemma song1_pickles b :
  @pickle_dumps Examples.libs (PDict (Song.attrs Examples.song1)) = Ok b ->
  @pickle_loads Examples.libs b = Ok (PDict (Song.attrs Examples.song1)).
Proof. intros [= <-]. vm_compute. reflexivity. Qed.

Lemma song1_complete : SongSpec.complete (Song.attrs Examples.song1).
Proof.
  intros attribute Hin. simpl in Hin.
  decompose [or] Hin; subst; try contradiction; vm_compute; eauto.
Qed.

(** The round trip on the datadir of the examples. *)
Lemma cache_round_trip_witness :
  Examples.construct Examples.config (Some "data") Examples.world1
  = (mkWorld Examples.os (w_fs Examples.world1)
       (w_events Examples.world1
          ++ [ EvRead (posixpath.join "data" "songs/a.sg");
               EvMakedirs (SongSpec.cache_dir (os := Examples.os) "data" "songs/a.sg");
               EvMakedirs (SongSpec.cache_dir (os := Examples.os) "data" "songs/a.sg");
               EvRead (SongSpec.cache_path (os := Examples.os) "data" "songs/a.sg") ]),
     Ok Examples.song1).
Proof.
  refine (proj1 (proj2 (@cache_round_trip Examples.os Examples.libs Examples.format
                          Examples.authors (MemFS_laws Examples.cwd) "songs/a.sg"
                          Examples.config "data" Examples.world Examples.world1
                          Examples.song1 _ _ _ _))).
  - discriminate.
  - vm_compute. reflexivity.
  - vm_compute. reflexivity.
  - exact song1_pickles.
Defined.

(** The same second construction, with another configuration. *)
Lemma cache_ignores_config_witness :
  Examples.construct Examples.config2 (Some "data") Examples.world1
  = (mkWorld Examples.os (w_fs Examples.world1)
       (w_events Examples.world1
          ++ [ EvRead (posixpath.join "data" "songs/a.sg");
               EvMakedirs (SongSpec.cache_dir (os := Examples.os) "data" "songs/a.sg");
               EvMakedirs (SongSpec.cache_dir (os := Examples.os) "data" "songs/a.sg");
               EvRead (SongSpec.cache_path (os := Examples.os) "data" "songs/a.sg") ]),
     Ok (Song.mk "data" (posixpath.join "data" "songs/a.sg") "utf-8" Examples.config2
                 (Song.attrs Examples.song1))).
Proof.
  refine (proj1 (proj2 (@cache_ignores_config Examples.os Examples.libs Examples.format
                          Examples.authors (MemFS_laws Examples.cwd) "songs/a.sg"
                          Examples.config Examples.config2 "data" Examples.world
                          Examples.world1 Examples.song1 _ _ _ _))).
  - discriminate.
  - vm_compute. reflexivity.
  - vm_compute. reflexivity.
  - exact song1_pickles.
Defined.

(** With the second configuration a parse gives the title as it is, and a
    construction on the cache of the first gives the title without "The". *)
Example config_ignored_on_hit :
  (match snd (Examples.construct Examples.config2 (Some "data") Examples.world) with
   | Ok song => Song.attrs song !! "unprefixed_titles"
   | Raised _ => None
   end) = Some (PList [PStr "The Song"])
  /\ (match snd (Examples.construct Examples.config2 (Some "data") Examples.world1) with
      | Ok song => Song.attrs song !! "unprefixed_titles"
      | Raised _ => None
      end) = Some (PList [PStr "Song"]).
Proof. split; vm_compute; reflexivity. Qed.


(** A cache file that cannot be unpickled: a warning, then a parse, and the
    cache file is written again. *)
Example corrupt_cache_events :
  w_events (fst (Examples.construct Examples.config (Some "data") Examples.corrupt_world))
  = [ EvRead "data/songs/a.sg";
      EvMakedirs "/srv/book/data/.cache/songs";
      EvMakedirs "/srv/book/data/.cache/songs";
      EvRead "/srv/book/data/.cache/songs/a.sg";
      EvWarning "Could not use cached version of data/songs/a.sg.";
      EvParse "data/songs/a.sg";
      EvMakedirs "/srv/book/data/.cache/songs";
      EvWrite "/srv/book/data/.cache/songs/a.sg" ]
  /\ snd (Examples.construct Examples.config (Some "data") Examples.corrupt_world)
     = Ok Examples.song1.
Proof. split; vm_compute; reflexivity. Qed.

(** The construction on the cache file that cannot be unpickled. *)
Lemma cache_failure_is_a_miss_witness :
  Examples.construct Examples.config (Some "data") Examples.corrupt_world
  = @SongSpec.parse_and_store Examples.os Examples.libs Examples.format Examples.authors
      "songs/a.sg" Examples.config "data" "The Song"
      (SongSpec.after Examples.corrupt_world
         (SongSpec.lookup_events (os := Examples.os) "data" "songs/a.sg"
            ++ SongSpec.attempt (os := Examples.os) "data" "songs/a.sg"
            ++ [EvWarning "Could not use cached version of data/songs/a.sg."])).
Proof.
  refine (proj1 (proj1 (@cache_failure_is_a_miss Examples.os Examples.libs Examples.format
                          Examples.authors (MemFS_laws Examples.cwd) "songs/a.sg"
                          Examples.config "data" Examples.song_bytes Examples.corrupt_world
                          _ _ _ _ _))).
  - discriminate.
  - vm_compute. reflexivity.
  - vm_compute. reflexivity.
  - vm_compute. reflexivity.
  - apply (SongSpec.corrupt _ _ _ _ [Byte.xff] PickleError); vm_compute; reflexivity.
Defined.

(** The song of the examples, built without a datadir. *)
Lemma no_datadir_no_cache_witness :
  snd Scenarios.plain_run = Ok Scenarios.plain_song
  /\ w_fs (fst Scenarios.plain_run) = Examples.disk
  /\ w_events (fst Scenarios.plain_run) = [EvParse "data/songs/a.sg"].
Proof.
  destruct (@no_datadir_no_cache Examples.os Examples.libs Examples.format Examples.authors
              "data/songs/a.sg" Examples.config None Examples.world (or_introl eq_refl))
    as [[Hfs Hev] Hres].
  split; [| split; [exact Hfs | exact Hev]].
  vm_compute in Hres. vm_compute. exact Hres.
Defined.

(** The cache of the song of the examples, once its directory exists. *)
Lemma cached_name_location_witness :
  posixpath.isabs "/srv/book/data/.cache/songs/a.sg" = true
  /\ @cached_name Examples.os "data" "songs/a.sg" Examples.world1
     = (SongSpec.after Examples.world1 [EvMakedirs "/srv/book/data/.cache/songs"],
        Ok "/srv/book/data/.cache/songs/a.sg").
Proof.
  pose proof (@cached_name_location Examples.os (MemFS_laws Examples.cwd)
                "data" "songs/a.sg" Examples.world1 eq_refl) as H.
  cbv zeta in H. destruct H as (Habs & _ & Hrun).
  split; [exact Habs | exact Hrun].
Defined.

(** On a new datadir the directories of the cache are made. *)
Example cached_name_makes_directories :
  let w' := fst (@cached_name Examples.os "data" "songs/a.sg" Examples.world) in
  w_fs w' !! "/srv/book/data/.cache" = Some MemFS.Dir
  /\ w_fs w' !! "/srv/book/data/.cache/songs" = Some MemFS.Dir.
Proof. split; vm_compute; reflexivity. Qed.

(** A file in the place of the cache directory: [EEXIST], on a path that is
    not a directory, is raised again. *)
Example cached_name_file_in_the_way :
  snd (@cached_name Examples.os "data" "songs/a.sg"
         (mkWorld Examples.os
                  (<["/srv/book/data/.cache/songs" := MemFS.File []]>
                     (<["/srv/book/data/.cache" := MemFS.Dir]> Examples.disk)) []))
  = Raised (OSError errno.EEXIST).
Proof. vm_compute. reflexivity. Qed.

(** The format of the examples renders LaTeX, and nothing else. *)
Lemma render_dispatch_witness :
  @Song.render Examples.os Examples.format Examples.song1 "latex" PNone [] Examples.world
  = (Examples.world, Ok (PStr "\beginsong"))
  /\ @Song.render Examples.os Examples.format Examples.song1 "pdf" PNone [] Examples.world
     = (Examples.world, Raised NotImplementedError).
Proof.
  split.
  - exact (proj1 (@render_dispatch Examples.os Examples.format Examples.song1 "latex" PNone []
                    Examples.world) _ eq_refl).
  - exact (proj2 (@render_dispatch Examples.os Examples.format Examples.song1 "pdf" PNone []
                    Examples.world) eq_refl).
Defined.

(** The song class itself renders nothing. *)
Example render_abstract :
  @Song.render Examples.os Examples.abstract_format Examples.song1 "latex" PNone []
               Examples.world
  = (Examples.world, Raised NotImplementedError).
Proof. reflexivity. Qed.

(** The example of the specification: [dirA] lacks the file, [dirB] has
    [cover.png], and the directory of the song lacks it. *)
Example search_file_second_directory :
  @Song.search_file Examples.os Examples.image_disk Examples.song1 "cover"
    (Some [""; ".png"]) (Some ["dirA"; "dirB"])
  = Some "/srv/book/dirB/cover.png".
Proof. vm_compute. reflexivity. Qed.

Example search_file_not_found :
  @Song.search_file Examples.os Examples.image_disk Examples.song1 "cover"
    (Some [""; ".jpg"]) None
  = None.
Proof. vm_compute. reflexivity. Qed.

(** A song given by an absolute path together with a datadir, the state
    that [DataSubpath] is to exclude: the path of its cache is the path of
    the song, and the construction writes the snapshot over the song. *)
Example absolute_subpath_overwrites_song :
  let run := @Song.__init__ Examples.os Examples.libs Examples.format Examples.authors
               "/srv/book/data/songs/a.sg" Examples.config (Some "data") Examples.world in
  @SongSpec.cache_path Examples.os "data" "/srv/book/data/songs/a.sg"
  = "/srv/book/data/songs/a.sg"
  /\ @read_file Examples.os Examples.disk "/srv/book/data/songs/a.sg" = Ok Examples.song_bytes
  /\ exists song,
      snd run = Ok song
      /\ @read_file Examples.os (w_fs (fst run)) "/srv/book/data/songs/a.sg"
         = Ok (Examples.dump (PDict (Song.attrs song))).
Proof.
  cbv zeta. split; [reflexivity | split; [reflexivity |]].
  eexists. split; vm_compute; reflexivity.
Qed.

(** * Further properties *)

(** ** Strings *)

Lemma append_assoc3 (a b c : string) : (a +:+ b) +:+ c = a +:+ (b +:+ c).
Proof.
  induction a as [|x a IH]; [reflexivity|].
  change (String x ((a +:+ b) +:+ c) = String x (a +:+ (b +:+ c))).
  now rewrite IH.
Qed.

Lemma append_empty_r (a : string) : a +:+ "" = a.
Proof.
  induction a as [|x a IH]; [reflexivity|].
  change (String x (a +:+ "") = String x a).
  now rewrite IH.
Qed.

Lemma endswith_sep_app a b :
  b <> "" -> posixpath.endswith_sep (a +:+ b) = posixpath.endswith_sep b.
Proof. destruct b as [|c b]; [congruence | intros _; apply endswith_sep_append]. Qed.

Lemma eqb_append_empty a b : b <> "" -> String.eqb (a +:+ b) "" = false.
Proof. destruct b as [|c b]; [congruence | intros _; apply append_not_empty]. Qed.

Lemma isabs_not_empty p : posixpath.isabs p = true -> p <> "".
Proof. destruct p; [discriminate | congruence]. Qed.

(** [posixpath.join] with a relative path, by the shape of the left part. *)
Lemma join_relative_eq a b :
  posixpath.isabs b = false ->
  posixpath.join a b
  = if (String.eqb a "" || posixpath.endswith_sep a)%bool then a +:+ b else a +:+ "/" +:+ b.
Proof. intros Hb. unfold posixpath.join. now rewrite Hb. Qed.

(** [posixpath.join] is associative: [join(a, join(b, c)) = join(join(a, b), c)]. *)
Lemma join_assoc a b c :
  posixpath.join a (posixpath.join b c) = posixpath.join (posixpath.join a b) c.
Proof.
  destruct (posixpath.isabs c) eqn:Hc.
  { now rewrite !(join_isabs _ c Hc). }
  destruct (posixpath.isabs b) eqn:Hb.
  { rewrite (join_isabs a b Hb).
    apply join_isabs. now rewrite (isabs_join_relative _ _ Hc). }
  destruct (string_dec b "") as [-> | Hbne].
  { rewrite join_empty_left.
    rewrite (join_relative_eq a "" eq_refl), (join_relative_eq a c Hc).
    destruct (String.eqb a "" || posixpath.endswith_sep a)%bool eqn:Ha.
    - rewrite append_empty_r, (join_relative_eq a c Hc). now rewrite Ha.
    - change (a +:+ "/" +:+ "") with (a +:+ "/").
      rewrite (join_relative_eq (a +:+ "/") c Hc).
      rewrite (endswith_sep_append a "/" ""). simpl posixpath.endswith_sep.
      rewrite orb_true_r. now rewrite append_assoc3. }
  assert (Hjbc : posixpath.isabs (posixpath.join b c) = false)
    by now rewrite (isabs_join_relative _ _ Hc).
  rewrite (join_relative_eq a _ Hjbc), (join_relative_eq a b Hb).
  rewrite (join_relative_eq b c Hc).
  assert (Hbe : String.eqb b "" = false) by now apply String.eqb_neq.
  rewrite Hbe. simpl orb.
  destruct (String.eqb a "" || posixpath.endswith_sep a)%bool.
  - rewrite (join_relative_eq (a +:+ b) c Hc).
    rewrite (eqb_append_empty a b Hbne), (endswith_sep_app a b Hbne). simpl orb.
    destruct (posixpath.endswith_sep b); now rewrite !append_assoc3.
  - rewrite (join_relative_eq (a +:+ "/" +:+ b) c Hc).
    assert (Hne : "/" +:+ b <> "") by discriminate.
    rewrite (eqb_append_empty a _ Hne), (endswith_sep_app a _ Hne).
    change ("/" +:+ b) with (String "/" b) at 1.
    assert (Hend : posixpath.endswith_sep (String "/" b) = posixpath.endswith_sep b)
      by (destruct b; [congruence | reflexivity]).
    rewrite Hend. simpl orb.
    destruct (posixpath.endswith_sep b); now rewrite !append_assoc3.
Qed.

(** ** DataSubpath, further *)

Lemma init_fullpath_join datadir subpath :
  DataSubpath.fullpath (DataSubpath.__init__ datadir subpath) = posixpath.join datadir subpath.
Proof.
  unfold DataSubpath.fullpath, DataSubpath.__init__.
  destruct (posixpath.isabs subpath) eqn:Habs; simpl; [| reflexivity].
  now rewrite !(join_isabs _ subpath Habs).
Qed.

(** X1.  The constructor keeps the path that its two arguments name: the
    full path of [DataSubpath(datadir, subpath)] is
    [os.path.join(datadir, subpath)], also when an absolute subpath made it
    drop the datadir. *)
Theorem DataSubpath_init_fullpath (datadir subpath : string) :
  DataSubpath.fullpath (DataSubpath.__init__ datadir subpath)
  = posixpath.join datadir subpath
  /\ DataSubpath.__str__ (DataSubpath.__init__ datadir subpath)
     = posixpath.join datadir subpath.
Proof. split; apply init_fullpath_join. Qed.

Lemma DataSubpath_clone_invariant_id self :
  DataSubpath.invariant self -> DataSubpath.clone self = self.
Proof.
  destruct self as [datadir subpath].
  unfold DataSubpath.invariant, DataSubpath.clone, DataSubpath.__init__. simpl.
  destruct (posixpath.isabs subpath); [| reflexivity].
  intros Hinv. now rewrite (Hinv eq_refl).
Qed.

(** X2.  [clone] gives an object with the same full path, in a state that
    satisfies the invariant of the constructor; it copies the two fields
    exactly when the object satisfies that invariant, and cloning a clone
    changes nothing. *)
Theorem DataSubpath_clone_fullpath (self : DataSubpath.t) :
  DataSubpath.fullpath (DataSubpath.clone self) = DataSubpath.fullpath self
  /\ DataSubpath.invariant (DataSubpath.clone self)
  /\ (DataSubpath.clone self = self <-> DataSubpath.invariant self)
  /\ DataSubpath.clone (DataSubpath.clone self) = DataSubpath.clone self.
Proof.
  split; [| split; [| split]].
  - unfold DataSubpath.clone.
    now rewrite init_fullpath_join.
  - apply DataSubpath_init_invariant.
  - split.
    + intros <-. apply DataSubpath_init_invariant.
    + apply DataSubpath_clone_invariant_id.
  - apply DataSubpath_clone_invariant_id, DataSubpath_init_invariant.
Qed.

(** X3.  On an object that satisfies the invariant of the constructor,
    [join] keeps the invariant exactly when the joined path is relative or
    the datadir is the empty string. *)
Theorem DataSubpath_join_invariant_iff (self : DataSubpath.t) (path : string) :
  DataSubpath.invariant self ->
  DataSubpath.invariant (DataSubpath.join self path)
  <-> (posixpath.isabs path = false \/ DataSubpath.datadir self = "").
Proof.
  unfold DataSubpath.invariant, DataSubpath.join. simpl. intros Hinv.
  destruct (posixpath.isabs path) eqn:Hpath.
  - rewrite (join_isabs _ _ Hpath), Hpath. split; [auto | intros [|]; [discriminate | auto]].
  - rewrite (isabs_join_relative _ _ Hpath). split; auto.
Qed.

(** X4.  The full path after a [join] is the full path before it, joined
    with the path; and two joins in a row are one join of the joined
    paths. *)
Theorem DataSubpath_join_fullpath (self : DataSubpath.t) (path path' : string) :
  DataSubpath.fullpath (DataSubpath.join self path)
  = posixpath.join (DataSubpath.fullpath self) path
  /\ DataSubpath.join (DataSubpath.join self path) path'
     = DataSubpath.join self (posixpath.join path path').
Proof.
  unfold DataSubpath.fullpath, DataSubpath.join. simpl. split.
  - apply join_assoc.
  - now rewrite join_assoc.
Qed.

Lemma DataSubpath_join_invariant_iff_witness :
  DataSubpath.invariant (DataSubpath.join (DataSubpath.__init__ "data" "songs") "a.sg")
  <-> (posixpath.isabs "a.sg" = false \/ "data" = "").
Proof.
  apply (DataSubpath_join_invariant_iff (DataSubpath.__init__ "data" "songs") "a.sg").
  apply DataSubpath_init_invariant.
Defined.

Section Further.
Context `{os : OS} {libs : Libs} {format : Song.Format} {authors : Song.Authors}.

(** ** cached_name, further *)

Lemma abspath_absolute cwd p :
  posixpath.isabs p = true -> posixpath.abspath cwd p = posixpath.normpath p.
Proof. intros Hp. unfold posixpath.abspath. now rewrite Hp. Qed.

(** X6.  With an absolute file name [cached_name] does not use the
    datadir: the call is the same for every datadir, and the name it
    returns is the normalized file name itself, not a path below a
    [.cache] directory. *)
Theorem cached_name_absolute_filename (datadir datadir' filename : string) (w : World) :
  posixpath.isabs filename = true ->
  cached_name datadir filename w = cached_name datadir' filename w
  /\ forall w' name,
      cached_name datadir filename w = (w', Ok name) ->
      name = posixpath.normpath filename.
Proof.
  intros Habs.
  assert (Hpath : forall d, posixpath.abspath getcwd (posixpath.join3 d ".cache" filename)
                            = posixpath.normpath filename).
  { intros d. rewrite (join3_absolute d filename Habs). now apply abspath_absolute. }
  split.
  - unfold cached_name. cbv zeta. now rewrite (Hpath datadir), (Hpath datadir').
  - intros w' name.
    cbv beta iota zeta delta [cached_name bind os_makedirs emit observe ret raise].
    rewrite (Hpath datadir). cbn [w_fs w_events].
    destruct (makedirs (w_fs w) _) as [f' [errno|]]; simpl.
    + destruct (Z.eqb errno errno.EEXIST); [| discriminate].
      destruct (path_isdir _ _); [| discriminate].
      now intros [= _ <-].
    + now intros [= _ <-].
Qed.

Section Laws.
Context {laws : OSLaws os}.

(** X5.  Once [cached_name] has returned, a second call returns the same
    name and leaves the file system as it is: the directory is there, and
    the [EEXIST] of [os.makedirs] is swallowed. *)
Theorem cached_name_idempotent (datadir filename : string) (w w1 : World) (name : string) :
  cached_name datadir filename w = (w1, Ok name) ->
  cached_name datadir filename w1
  = (mkWorld _ (w_fs w1) (w_events w1 ++ [EvMakedirs (posixpath.dirname name)]), Ok name).
Proof.
  intros Hrun. apply cached_name_ok in Hrun as [-> Hdir].
  now apply cached_name_stable.
Qed.

End Laws.

(** ** The constructor, when it fails *)

(** X7.  A song file of a datadir that cannot be read: the constructor
    raises the error of the read, and has done nothing else: no cache
    directory is made, the parser is not called. *)
Theorem init_unreadable_song (subpath : string) (config : Config) (datadir : string)
        (e : exn) (w : World) :
  datadir <> "" ->
  read_file (w_fs w) (posixpath.join datadir subpath) = Raised e ->
  Song.__init__ subpath config (Some datadir) w
  = (SongSpec.after w [EvRead (posixpath.join datadir subpath)], Raised e).
Proof.
  intros Hd Hread. rewrite (init_in_datadir _ _ _ _ (eqb_empty_false _ Hd)).
  unfold Song.load. unfold bind at 1. unfold bind at 1.
  now rewrite open_read_run, Hread.
Qed.

(** X8.  A cache directory that cannot be made, for another reason than
    its being there already: the constructor raises the [OSError] of
    [os.makedirs], after reading the song file and before calling the
    parser. *)
Theorem init_cache_directory_failure (subpath : string) (config : Config) (datadir : string)
        (content : bytes) (errno : Z) (f' : fs) (w : World) :
  datadir <> "" ->
  read_file (w_fs w) (posixpath.join datadir subpath) = Ok content ->
  makedirs (w_fs w) (SongSpec.cache_dir datadir subpath) = (f', Some errno) ->
  (Z.eqb errno errno.EEXIST && path_isdir f' (SongSpec.cache_dir datadir subpath))%bool = false ->
  Song.__init__ subpath config (Some datadir) w
  = (mkWorld _ f' (w_events w ++ SongSpec.lookup_events datadir subpath),
     Raised (OSError errno)).
Proof.
  intros Hd Hread Hmk Herr. rewrite (init_in_datadir _ _ _ _ (eqb_empty_false _ Hd)).
  unfold Song.load. unfold bind at 1. unfold bind at 1.
  rewrite open_read_run, Hread.
  unfold bind at 1.
  assert (Hcn : cached_name datadir subpath
                  (mkWorld _ (w_fs w) (w_events w ++ [EvRead (posixpath.join datadir subpath)]))
                = (mkWorld _ f' (w_events w ++ SongSpec.lookup_events datadir subpath),
                   Raised (OSError errno))).
  { cbv beta iota zeta delta [cached_name bind os_makedirs emit observe ret raise].
    unfold SongSpec.cache_dir, SongSpec.cache_path in *. cbn [w_fs w_events].
    rewrite Hmk. simpl. rewrite <- app_assoc. simpl.
    destruct (Z.eqb errno errno.EEXIST); simpl in *; [| reflexivity].
    now rewrite Herr. }
  now rewrite Hcn.
Qed.

End Further.

Section Constructor.
Context `{os : OS} {libs : Libs} {format : Song.Format} {authors : Song.Authors}.

Ltac lookups :=
  repeat first [ rewrite lookup_insert_eq
               | rewrite lookup_insert_ne by discriminate
               | rewrite lookup_singleton_eq
               | rewrite lookup_singleton_ne by discriminate
               | rewrite lookup_empty ].

(** ** The constructor, when it parses *)

Lemma unprefixed_titles_Forall2 titles prefixes :
  forall us,
    Song.unprefixed_titles titles prefixes = Some us ->
    Forall2 (fun title u => unprefixed_title title prefixes = Some u) titles us.
Proof.
  induction titles as [|title titles IH]; simpl; intros us.
  - intros [= <-]. constructor.
  - destruct (unprefixed_title title prefixes) as [u|] eqn:Hu; [| discriminate].
    destruct (Song.unprefixed_titles titles prefixes) as [us'|]; [| discriminate].
    intros [= <-]. constructor; auto.
Qed.

(** X9.  The post-processing of a song that is built from its file,
    outside of a datadir: the titles are those of the parser, the titles
    without prefix are their images by [unprefixed_title], one for one and
    in the same order, the authors are what [process_listauthors] made of
    the parser's authors, with no keyword argument when the configuration
    has no [_compiled_authwords]; the version is [CACHE_VERSION], and the
    song has no [_filehash]. *)
Theorem init_post_processing (subpath : string) (config : Config) (datadir : option string)
        (w w1 : World) (song : Song.t) :
  datadir = None \/ datadir = Some "" ->
  Song.__init__ subpath config datadir w = (w1, Ok song) ->
  exists parsed unprefixed processed,
    Song._parse (w_fs w) subpath (cfg_encoding config) config = Ok parsed
    /\ Song.attrs song !! "titles" = Some (Song.str_list (p_titles parsed))
    /\ Song.attrs song !! "unprefixed_titles" = Some (Song.str_list unprefixed)
    /\ Forall2 (fun title u => unprefixed_title title (cfg_titleprefixwords config) = Some u)
               (p_titles parsed) unprefixed
    /\ Song.process_listauthors (p_authors parsed)
         (default (PDict ∅) (cfg_compiled_authwords config)) = Ok processed
    /\ Song.attrs song !! "authors" = Some processed
    /\ Song.attrs song !! "languages" = Some (p_languages parsed)
    /\ Song.attrs song !! "data" = Some (p_data parsed)
    /\ Song.attrs song !! "cached" = Some (p_cached parsed)
    /\ Song.attrs song !! "subpath" = Some (PStr subpath)
    /\ Song.attrs song !! "_version" = Some (PInt 2)
    /\ Song.attrs song !! "_filehash" = None
    /\ Song.datadir song = "" /\ Song.fullpath song = subpath.
Proof.
  intros Hd.
  assert (Ht : Song.truthy datadir = false) by (destruct Hd; subst; reflexivity).
  assert (Hdd : default "" datadir = "") by (destruct Hd; subst; reflexivity).
  unfold Song.__init__. rewrite Ht, Hdd, join_empty_left, bind_ret.
  intros Hk. apply bind_ok_inv in Hk as (w2 & self1 & Hext & Hret).
  injection Hret as _ <-.
  apply extract_ok_parsed in Hext as (parsed & unprefixed & processed & Hp & Hu & Ha & ->).
  exists parsed, unprefixed, processed. simpl. unfold SongSpec.constructed.
  repeat split; auto; try (now lookups).
  now apply unprefixed_titles_Forall2.
Qed.

Lemma fresh_inv (snap : gmap string pyval) h :
  SongSpec.fresh snap h = true ->
  snap !! "_filehash" = Some (PStr h)
  /\ snap !! "_version" = Some (PInt Song.CACHE_VERSION).
Proof.
  unfold SongSpec.fresh.
  destruct (snap !! "_filehash") as [[|n0|s|l0|d0]|]; try discriminate;
    destruct (snap !! "_version") as [[|n|s'|l|d]|]; simpl; try discriminate;
    try (rewrite andb_false_r; discriminate).
  intros [Hs Hn]%andb_prop.
  apply String.eqb_eq in Hs. apply Z.eqb_eq in Hn. now subst.
Qed.

Lemma cached_attribute_filehash : In "_filehash" Song.cached_attributes.
Proof. simpl. tauto. Qed.

Lemma cached_attribute_version : In "_version" Song.cached_attributes.
Proof. simpl. tauto. Qed.

Section Laws.
Context {laws : OSLaws os}.

(** X10.  Whatever the way a song of a datadir was built, from the cache
    or from its file: it carries the hash of the file as it was read and
    the current cache version, each cached attribute is set, and the
    attributes that are kept by name are the cached ones only. *)
Theorem init_song_attributes (subpath : string) (config : Config) (datadir : string)
        (w w1 : World) (song : Song.t) :
  datadir <> "" ->
  Song.__init__ subpath config (Some datadir) w = (w1, Ok song) ->
  exists content,
    read_file (w_fs w) (posixpath.join datadir subpath) = Ok content
    /\ Song.attrs song !! "_filehash" = Some (PStr (md5_hexdigest content))
    /\ Song.attrs song !! "_version" = Some (PInt Song.CACHE_VERSION)
    /\ SongSpec.complete (Song.attrs song)
    /\ (forall k, ~ In k Song.cached_attributes -> Song.attrs song !! k = None)
    /\ song = Song.mk datadir (posixpath.join datadir subpath) (cfg_encoding config) config
                      (Song.attrs song).
Proof.
  intros Hd Hinit. rewrite (init_in_datadir _ _ _ _ (eqb_empty_false _ Hd)) in Hinit.
  apply bind_ok_inv in Hinit as (w0 & r & Hload & Hk).
  apply load_ok_inv in Hload as (content & Hread & Hdir & Hr).
  exists content. split; [exact Hread |].
  destruct r as [self' | self].
  - injection Hk as _ <-. cbn [Song.attrs].
    destruct Hr as (cache & snap & _ & _ & Hc & Hf & ->).
    destruct (fresh_inv _ _ Hf) as [Hh Hv].
    refine (conj _ (conj _ (conj _ (conj _ eq_refl)))).
    + now rewrite (lookup_restored_in _ _ cached_attribute_filehash).
    + now rewrite (lookup_restored_in _ _ cached_attribute_version).
    + intros a Ha. rewrite (lookup_restored_in _ _ Ha). now apply Hc.
    + intros k Hk. now apply lookup_restored_out.
  - subst self. apply bind_ok_inv in Hk as (w2 & self1 & Hext & Hret).
    injection Hret as _ <-. cbn [Song.attrs].
    apply extract_ok_parsed in Hext as (parsed & unprefixed & processed & _ & _ & _ & ->).
    refine (conj _ (conj _ (conj _ (conj _ eq_refl)))).
    + unfold SongSpec.constructed. now lookups.
    + unfold SongSpec.constructed. now lookups.
    + intros a. apply constructed_in.
    + intros k. apply constructed_out.
Qed.



(** X13.  A failure of the parser, or of [process_listauthors] after it,
    on a first construction in a datadir: the constructor raises the same
    exception, and no cache file is written. *)
Theorem init_parse_failure (subpath : string) (config : Config) (datadir : string)
        (content : bytes) (e : exn) (w : World) :
  datadir <> "" ->
  read_file (w_fs w) (posixpath.join datadir subpath) = Ok content ->
  path_isdir (w_fs w) (SongSpec.cache_dir datadir subpath) = true ->
  path_exists (w_fs w) (SongSpec.cache_path datadir subpath) = false ->
  Song._parse (w_fs w) (posixpath.join datadir subpath) (cfg_encoding config) config = Raised e
  \/ (exists parsed unprefixed,
         Song._parse (w_fs w) (posixpath.join datadir subpath) (cfg_encoding config) config
         = Ok parsed
         /\ Song.unprefixed_titles (p_titles parsed) (cfg_titleprefixwords config)
            = Some unprefixed
         /\ Song.process_listauthors (p_authors parsed)
              (default (PDict ∅) (cfg_compiled_authwords config)) = Raised e) ->
  Song.__init__ subpath config (Some datadir) w
  = (SongSpec.after w (SongSpec.lookup_events datadir subpath
                         ++ [EvParse (posixpath.join datadir subpath)]),
     Raised e).
Proof.
  intros Hd Hread Hdir Hnone Hfail.
  rewrite (init_no_cache_file _ _ _ _ _ (eqb_empty_false _ Hd) Hread Hdir Hnone).
  unfold SongSpec.parse_and_store, Song.extract. unfold bind at 1. unfold bind at 1.
  rewrite parse_run, after_after. cbn [SongSpec.after w_fs].
  destruct Hfail as [Hp | (parsed & unprefixed & Hp & Hu & Ha)]; rewrite Hp; [reflexivity |].
  rewrite Hu, bind_lift_ok, Ha. now rewrite bind_lift_raised.
Qed.

End Laws.
End Constructor.

Section WriteCache.
Context `{os : OS} {libs : Libs} {format : Song.Format} {authors : Song.Authors}.

(** ** _write_cache *)

Lemma snapshot_ok_complete self attributes :
  forall cached snap,
    Song.snapshot self attributes cached = Ok snap ->
    forall a, In a attributes -> is_Some (self !! a).
Proof.
  induction attributes as [|a' attributes IH]; simpl; intros cached snap Hs a; [tauto |].
  destruct (self !! a') as [v|] eqn:Ha; [| discriminate].
  intros [<- | Hin]; [rewrite Ha; eauto | eapply IH; eauto].
Qed.

(** The snapshot holds the cached attributes of the song, and no other. *)
Lemma snapshot_restored self snap :
  Song.snapshot self Song.cached_attributes ∅ = Ok snap ->
  SongSpec.complete self /\ snap = SongSpec.restored self.
Proof.
  intros Hs. pose proof (snapshot_ok_complete _ _ _ _ Hs) as Hc.
  split; [exact Hc |].
  rewrite (snapshot_restore _ _ _ Hc) in Hs.
  apply map_eq. intros k.
  destruct (restore_lookup _ _ _ _ Hs k) as [Hk Hout].
  destruct (in_dec string_dec k Song.cached_attributes) as [Hi | Hi].
  - rewrite (lookup_restored_in _ _ Hi). now destruct (Hk Hi).
  - now rewrite (Hout Hi), lookup_empty, (lookup_restored_out _ _ Hi).
Qed.

Lemma first_missing_split (self : gmap string pyval) attribute attributes :
  In attribute attributes ->
  self !! attribute = None ->
  exists before missing after,
    attributes = before ++ missing :: after
    /\ Forall (fun a => is_Some (self !! a)) before
    /\ self !! missing = None.
Proof.
  induction attributes as [|a attributes IH]; simpl; [tauto |].
  intros Hin Hnone.
  destruct (self !! a) as [v|] eqn:Ha.
  - destruct Hin as [-> | Hin]; [congruence |].
    destruct (IH Hin Hnone) as (before & missing & after & -> & Hall & Hm).
    exists (a :: before), missing, after.
    split; [reflexivity |]. split; [| exact Hm].
    constructor; [rewrite Ha; eauto | exact Hall].
  - exists [], a, attributes. auto.
Qed.

Lemma snapshot_first_missing (self : gmap string pyval) before missing after :
  Forall (fun a => is_Some (self !! a)) before ->
  self !! missing = None ->
  forall cached,
    Song.snapshot self (before ++ missing :: after) cached = Raised (AttributeError missing).
Proof.
  intros Hall Hnone. induction Hall as [|a before [v Ha] _ IH]; intros cached; simpl.
  - now rewrite Hnone.
  - rewrite Ha. apply IH.
Qed.

(** X14.  A song of a datadir that lacks one of the cached attributes
    cannot be stored: [_write_cache] raises [AttributeError] for the first
    name of [cached_attributes], in the order of the list, that the song
    lacks: every name before it is set.  It does so before it touches the
    cache: no directory is made, no file is opened. *)
Theorem write_cache_missing_attribute (datadir : string) (self : gmap string pyval)
        (attribute : string) (w : World) :
  datadir <> "" ->
  In attribute Song.cached_attributes ->
  self !! attribute = None ->
  exists before missing after,
    Song.cached_attributes = before ++ missing :: after
    /\ Forall (fun a => is_Some (self !! a)) before
    /\ self !! missing = None
    /\ Song._write_cache datadir self w = (w, Raised (AttributeError missing)).
Proof.
  intros Hd Hin Hnone.
  destruct (first_missing_split self attribute _ Hin Hnone)
    as (before & missing & after & Hsplit & Hall & Hm).
  exists before, missing, after. split; [exact Hsplit |]. split; [exact Hall |].
  split; [exact Hm |].
  unfold Song._write_cache. rewrite (eqb_empty_false _ Hd), Hsplit. cbn [negb].
  rewrite (snapshot_first_missing self before missing after Hall Hm).
  now rewrite bind_lift_raised.
Qed.

Section Laws.
Context {laws : OSLaws os}.

(** X15.  When [_write_cache] returns for a song of a datadir, the cache
    file of the song holds the pickle of a dictionary with the nine
    cached attributes of the song, and with nothing else that the song
    has. *)
Theorem write_cache_stores_cached_attributes (datadir subpath : string)
        (self : gmap string pyval) (w w1 : World) :
  datadir <> "" ->
  self !! "subpath" = Some (PStr subpath) ->
  path_isdir (w_fs w) (SongSpec.cache_dir datadir subpath) = true ->
  Song._write_cache datadir self w = (w1, Ok tt) ->
  SongSpec.complete self
  /\ exists b,
      pickle_dumps (PDict (SongSpec.restored self)) = Ok b
      /\ SongSpec.cache_file (w_fs w1) datadir subpath b
      /\ w_events w1
         = w_events w ++ [ EvMakedirs (SongSpec.cache_dir datadir subpath);
                           EvWrite (SongSpec.cache_path datadir subpath) ].
Proof.
  intros Hd Hsub Hdir Hrun.
  pose proof Hrun as Hinv.
  apply (write_cache_ok_inv datadir subpath) in Hinv
    as (snap & f1 & b & Hs & Hw1 & Hdump & Hw2); auto using eqb_empty_false.
  destruct (snapshot_restored _ _ Hs) as [Hc ->].
  split; [exact Hc |]. exists b. split; [exact Hdump |].
  destruct (write_then_read _ _ _ _ Hw2) as [Hex Hrd].
  split.
  - repeat split; auto.
    rewrite (write_keeps_dirs _ _ _ _ _ Hw2), (write_keeps_dirs _ _ _ _ _ Hw1). exact Hdir.
  - revert Hrun. unfold Song._write_cache, Song.getattr_str.
    rewrite (eqb_empty_false _ Hd), Hsub, Hs. cbn [negb].
    rewrite !bind_lift_ok.
    rewrite (bind_run _ _ _ _ _ (cached_name_after _ _ _ Hdir)).
    unfold open_wb. unfold bind at 1 2, emit at 1. cbn [SongSpec.after w_fs w_events].
    rewrite Hw1, Hdump, bind_lift_ok. unfold file_write. cbn [w_fs w_events].
    rewrite Hw2. intros [= <-]. cbn [w_events].
    now rewrite <- app_assoc.
Qed.

(** X16.  The cache file is opened for writing before the dictionary is
    pickled: when the pickling fails, [_write_cache] raises the error of
    the pickling and the cache file is there all the same. *)
Theorem write_cache_dump_failure (datadir subpath : string) (self : gmap string pyval)
        (e : exn) (f1 : fs) (w : World) :
  datadir <> "" ->
  self !! "subpath" = Some (PStr subpath) ->
  SongSpec.complete self ->
  path_isdir (w_fs w) (SongSpec.cache_dir datadir subpath) = true ->
  write_file (w_fs w) (SongSpec.cache_path datadir subpath) [] = Ok f1 ->
  pickle_dumps (PDict (SongSpec.restored self)) = Raised e ->
  snd (Song._write_cache datadir self w) = Raised e
  /\ path_exists (w_fs (fst (Song._write_cache datadir self w)))
                 (SongSpec.cache_path datadir subpath) = true
  /\ w_events (fst (Song._write_cache datadir self w))
     = w_events w ++ [ EvMakedirs (SongSpec.cache_dir datadir subpath);
                       EvWrite (SongSpec.cache_path datadir subpath) ].
Proof.
  intros Hd Hsub Hc Hdir Hw1 Hdump.
  assert (Hs : Song.snapshot self Song.cached_attributes ∅ = Ok (SongSpec.restored self)).
  { rewrite (snapshot_restore _ _ _ Hc).
    destruct (restore_complete self Song.cached_attributes Hc ∅) as [snap Hr].
    rewrite Hr. f_equal.
    rewrite <- (snapshot_restore _ _ _ Hc) in Hr.
    exact (proj2 (snapshot_restored _ _ Hr)). }
  assert (Hrun : Song._write_cache datadir self w
                 = (mkWorld _ f1
                      (w_events w ++ [ EvMakedirs (SongSpec.cache_dir datadir subpath);
                                       EvWrite (SongSpec.cache_path datadir subpath) ]),
                    Raised e)).
  { unfold Song._write_cache, Song.getattr_str.
    rewrite (eqb_empty_false _ Hd), Hsub, Hs. cbn [negb].
    rewrite !bind_lift_ok.
    rewrite (bind_run _ _ _ _ _ (cached_name_after _ _ _ Hdir)).
    unfold open_wb. unfold bind at 1 2, emit at 1. cbn [SongSpec.after w_fs w_events].
    rewrite Hw1, Hdump, bind_lift_raised. now rewrite <- app_assoc. }
  rewrite Hrun. cbn [fst snd w_fs w_events].
  split; [reflexivity |]. split; [| reflexivity].
  now destruct (write_then_read _ _ _ _ Hw1).
Qed.

End Laws.
End WriteCache.

Section Search.
Context `{os : OS}.

(** ** The searches *)

Lemma find_none_Forall {A} (p : A -> bool) l :
  List.find p l = None <-> Forall (fun x => p x = false) l.
Proof.
  induction l as [|x l IH]; simpl.
  - split; [constructor | reflexivity].
  - destruct (p x) eqn:Hx.
    + split; [discriminate | intros H; inversion H; congruence].
    + rewrite IH. split; [now constructor | intros H; now inversion H].
Qed.

Lemma find_some_In {A} (p : A -> bool) l x :
  List.find p l = Some x -> In x l /\ p x = true.
Proof.
  induction l as [|y l IH]; simpl; [discriminate |].
  destruct (p y) eqn:Hy.
  - intros [= <-]. auto.
  - intros Hf. destruct (IH Hf). auto.
Qed.

Lemma search_file_find (f : fs) (self : Song.t) (filename : string)
      (extensions directories : option (list string)) :
  Song.search_file f self filename extensions directories
  = posixpath.abspath getcwd
      <$> List.find (path_isfile f)
            (SongSpec.candidates filename
               (default [""] extensions)
               (posixpath.dirname (Song.fullpath self)
                  :: default (cfg_datadir (Song.config self)) directories)).
Proof. unfold Song.search_file. cbv zeta. apply search_directories_find. Qed.

(** X17.  [search_file] answers [None] exactly when none of the paths it
    tries is an existing file: it does not miss a file that is there. *)
Theorem search_file_none_iff (f : fs) (self : Song.t) (filename : string)
        (extensions directories : option (list string)) :
  Song.search_file f self filename extensions directories = None
  <-> Forall (fun path => path_isfile f path = false)
             (SongSpec.candidates filename
                (default [""] extensions)
                (posixpath.dirname (Song.fullpath self)
                   :: default (cfg_datadir (Song.config self)) directories)).
Proof.
  rewrite search_file_find, <- find_none_Forall.
  destruct (List.find _ _); simpl; split; congruence.
Qed.

Lemma search_extensions_absolute f directory directory' filename extensions :
  posixpath.isabs filename = true ->
  Song.search_extensions f directory filename extensions
  = Song.search_extensions f directory' filename extensions.
Proof.
  intros Habs.
  assert (Hj : forall d extension,
             posixpath.join d (filename +:+ extension) = filename +:+ extension).
  { intros d extension. apply join_isabs.
    rewrite isabs_append; [exact Habs | now apply isabs_not_empty]. }
  induction extensions as [|extension extensions IH]; simpl; [reflexivity |].
  now rewrite !Hj, IH.
Qed.

Lemma search_directories_absolute f filename extensions directory directories :
  posixpath.isabs filename = true ->
  Song.search_directories f filename extensions (directory :: directories)
  = Song.search_extensions f directory filename extensions.
Proof.
  intros Habs. revert directory.
  induction directories as [|directory' directories IH]; intros directory.
  - simpl. now destruct (Song.search_extensions _ _ _ _).
  - change (Song.search_directories f filename extensions
              (directory :: directory' :: directories))
      with (match Song.search_extensions f directory filename extensions with
            | Some found => Some found
            | None => Song.search_directories f filename extensions
                        (directory' :: directories)
            end).
    rewrite IH, (search_extensions_absolute f directory' directory _ _ Habs).
    now destruct (Song.search_extensions _ _ _ _).
Qed.

(** X18.  With an absolute file name the directories play no part in
    [search_file]: the directory of the song and the datadirs are not
    looked into, and the answer is the normalized path of the first of
    the file name plus an extension that is an existing file. *)
Theorem search_file_absolute_filename (f : fs) (self : Song.t) (filename : string)
        (extensions directories : option (list string)) :
  posixpath.isabs filename = true ->
  Song.search_file f self filename extensions directories
  = posixpath.normpath
      <$> List.find (path_isfile f)
            (map (fun extension => filename +:+ extension) (default [""] extensions)).
Proof.
  intros Habs. unfold Song.search_file. cbv zeta.
  change ([posixpath.dirname (Song.fullpath self)]
            ++ default (cfg_datadir (Song.config self)) directories)
    with (posixpath.dirname (Song.fullpath self)
            :: default (cfg_datadir (Song.config self)) directories).
  rewrite (search_directories_absolute _ _ _ _ _ Habs), search_extensions_find.
  assert (Habs' : forall extension, posixpath.isabs (filename +:+ extension) = true).
  { intros extension. rewrite isabs_append; [exact Habs | now apply isabs_not_empty]. }
  induction (default [""] extensions) as [|extension extensions' IH]; simpl; [reflexivity |].
  rewrite (join_isabs _ _ (Habs' extension)).
  destruct (path_isfile f (filename +:+ extension)); simpl; [| exact IH].
  now rewrite (abspath_absolute _ _ (Habs' extension)).
Qed.

(** X19.  [search_partition] without [none_if_not_found] always answers a
    path: the file name as it was given when no candidate is a file, and
    else the absolute path of a candidate that is a file; the candidates
    are the file name and the file name with [.ly], in the directory of
    the song and in the datadirs.  With [none_if_not_found] it answers as
    [search_file] does. *)
Theorem search_partition_answer (f : fs) (self : Song.t) (filename : string) :
  posixpath.isabs getcwd = true ->
  let candidates :=
    SongSpec.candidates filename [""; ".ly"]
      (posixpath.dirname (Song.fullpath self) :: cfg_datadir (Song.config self)) in
  (exists path,
      Song.search_partition f self filename false = Some path
      /\ ((path = filename /\ Forall (fun p => path_isfile f p = false) candidates)
          \/ (posixpath.isabs path = true
              /\ exists candidate,
                  In candidate candidates
                  /\ path_isfile f candidate = true
                  /\ path = posixpath.abspath getcwd candidate)))
  /\ Song.search_partition f self filename true
     = Song.search_file f self filename (Some [""; ".ly"]) None.
Proof.
  intros Hcwd candidates. split; [| reflexivity].
  unfold Song.search_partition. cbv zeta. rewrite search_file_find.
  change (SongSpec.candidates filename (default [""] (Some [""; ".ly"]))
            (posixpath.dirname (Song.fullpath self)
               :: default (cfg_datadir (Song.config self)) None))
    with candidates.
  destruct (List.find (path_isfile f) candidates) as [candidate|] eqn:Hfind; simpl.
  - exists (posixpath.abspath getcwd candidate). split; [reflexivity |]. right.
    split; [now apply isabs_abspath |].
    destruct (find_some_In _ _ _ Hfind). exists candidate. auto.
  - exists filename. split; [reflexivity |]. left.
    split; [reflexivity | now apply find_none_Forall].
Qed.

(** X20.  An image that [search_image] finds is a file, named by the file
    name as given or followed by [.jpg] or [.png], and it is either in
    the directory of the song or in the [img] directory of a datadir of
    the configuration, that directory being an existing one. *)
Theorem search_image_found (f : fs) (self : Song.t) (filename path : string) :
  Song.search_image f self filename true = Some path ->
  exists directory extension,
    (directory = posixpath.dirname (Song.fullpath self)
     \/ exists datadir,
         In datadir (cfg_datadir (Song.config self))
         /\ directory = posixpath.join datadir "img"
         /\ path_isdir f directory = true)
    /\ In extension [""; ".jpg"; ".png"]
    /\ path_isfile f (posixpath.join directory (filename +:+ extension)) = true
    /\ path = posixpath.abspath getcwd (posixpath.join directory (filename +:+ extension)).
Proof.
  unfold Song.search_image. cbv zeta. cbn [orb]. rewrite search_file_find.
  destruct (List.find _ _) as [candidate|] eqn:Hfind; simpl; [| discriminate].
  intros [= <-]. destruct (find_some_In _ _ _ Hfind) as [Hin Hfile].
  unfold SongSpec.candidates in Hin. apply in_flat_map in Hin as (directory & Hd & Hin).
  apply in_map_iff in Hin as (extension & <- & Hext).
  exists directory, extension. repeat split; auto.
  destruct Hd as [<- | Hd]; [now left | right].
  unfold Song.get_datadirs in Hd. simpl in Hd.
  apply list_elem_of_In, list_elem_of_filter in Hd as [Hdir Hd].
  apply list_elem_of_In, in_map_iff in Hd as (datadir & <- & Hd).
  exists datadir. auto.
Qed.

End Search.

(** ** unprefixed_title, further *)

Lemma list_ascii_of_string_app a b :
  list_ascii_of_string (a +:+ b) = list_ascii_of_string a ++ list_ascii_of_string b.
Proof.
  induction a as [|x a IH]; [reflexivity |].
  change (x :: list_ascii_of_string (a +:+ b)
          = x :: (list_ascii_of_string a ++ list_ascii_of_string b)).
  now rewrite IH.
Qed.

Lemma string_of_list_ascii_app l1 l2 :
  string_of_list_ascii (l1 ++ l2) = string_of_list_ascii l1 +:+ string_of_list_ascii l2.
Proof.
  induction l1 as [|x l1 IH]; [reflexivity |].
  change (String x (string_of_list_ascii (l1 ++ l2))
          = String x (string_of_list_ascii l1 +:+ string_of_list_ascii l2)).
  now rewrite IH.
Qed.

Lemma strip_prefix_app p rest : TitleSpec.strip_prefix p (p ++ rest) = Some rest.
Proof.
  induction p as [|c p IH]; simpl; [now destruct rest |].
  now rewrite Ascii.eqb_refl.
Qed.

Lemma strip_prefix_inv p :
  forall l rest, TitleSpec.strip_prefix p l = Some rest -> l = p ++ rest.
Proof.
  induction p as [|c p IH]; intros l rest; simpl.
  - destruct l; now intros [= <-].
  - destruct l as [|c' l]; [discriminate |].
    destruct (Ascii.eqb c c') eqn:Hc; [| discriminate].
    apply Ascii.eqb_eq in Hc as <-. intros Hs. now rewrite (IH _ _ Hs).
Qed.

Lemma lstrip_inv l :
  exists spaces, l = spaces ++ TitleSpec.lstrip l /\ Forall (fun c => re.is_space c = true) spaces.
Proof.
  induction l as [|c l (spaces & IH & Hsp)]; simpl.
  - exists []. auto.
  - destruct (re.is_space c) eqn:Hc.
    + exists (c :: spaces). split; [simpl; congruence | now constructor].
    + exists []. auto.
Qed.

Lemma lstrip_spaces l : Forall (fun c => re.is_space c = true) l -> TitleSpec.lstrip l = [].
Proof. induction 1 as [|c l Hc _ IH]; simpl; [reflexivity | now rewrite Hc]. Qed.

Lemma first_line_inv l :
  forall line rest,
    TitleSpec.first_line l = (line, rest) ->
    l = line ++ rest /\ (rest = [] \/ exists rest', rest = "010"%char :: rest').
Proof.
  induction l as [|c l IH]; simpl; intros line rest.
  - intros [= <- <-]. auto.
  - destruct (re.is_linebreak c) eqn:Hc.
    + intros [= <- <-]. split; [reflexivity |]. right.
      apply Ascii.eqb_eq in Hc as ->. eauto.
    + destruct (TitleSpec.first_line l) as [line' rest'].
      intros [= <- <-]. destruct (IH _ _ eq_refl) as [-> Hrest]. auto.
Qed.

Lemma single_line_inv r line :
  TitleSpec.single_line r = Some line ->
  exists tail, r = line ++ tail /\ (tail = [] \/ tail = ["010"%char]).
Proof.
  unfold TitleSpec.single_line.
  destruct (TitleSpec.first_line r) as [line' rest] eqn:Hf.
  destruct (first_line_inv _ _ _ Hf) as [-> Hrest].
  destruct rest as [|c [|c' rest]]; intros [= <-].
  - exists []. auto.
  - exists [c]. split; [reflexivity |]. right.
    destruct Hrest as [| [rest' [= -> _]]]; [discriminate | reflexivity].
Qed.

Lemma unprefixed_line_part title prefixes :
  exists before tail,
    list_ascii_of_string title
    = before ++ list_ascii_of_string (TitleSpec.unprefixed_line title prefixes) ++ tail
    /\ (tail = [] \/ tail = ["010"%char]).
Proof.
  induction prefixes as [|prefix prefixes IH]; simpl.
  - exists [], []. rewrite app_nil_r. auto.
  - unfold TitleSpec.remainder.
    destruct (TitleSpec.strip_prefix _ _) as [rest|] eqn:Hs; [| exact IH].
    destruct (TitleSpec.whole_word _ rest); [| exact IH].
    destruct (TitleSpec.single_line (TitleSpec.lstrip rest)) as [line|] eqn:Hl; [| exact IH].
    apply strip_prefix_inv in Hs.
    destruct (lstrip_inv rest) as (spaces & Hrest & _).
    destruct (single_line_inv _ _ Hl) as (tail & Hline & Htail).
    exists (list_ascii_of_string prefix ++ spaces), tail.
    split; [| exact Htail].
    rewrite list_ascii_of_string_of_list_ascii, Hs, Hrest, Hline.
    now rewrite <- !app_assoc.
Qed.

(** X21.  With prefixes made of literal characters, [unprefixed_title]
    returns a part of the title: the title is what was removed in front,
    then the result, then nothing or one final line feed.  Nothing is
    added, and nothing is taken from the middle. *)
Theorem unprefixed_title_part_of_title (title : string) (prefixes : list string) :
  Forall (fun prefix => re.literal prefix = true) prefixes ->
  exists result before tail,
    unprefixed_title title prefixes = Some result
    /\ title = before +:+ result +:+ tail
    /\ (tail = "" \/ tail = TitleSpec.LF).
Proof.
  intros Hlit.
  destruct (unprefixed_line_part title prefixes) as (before & tail & Heq & Htail).
  exists (TitleSpec.unprefixed_line title prefixes),
         (string_of_list_ascii before), (string_of_list_ascii tail).
  split; [now apply unprefixed_title_line |]. split.
  - transitivity (string_of_list_ascii (list_ascii_of_string title));
      [symmetry; apply string_of_list_ascii_of_string |].
    rewrite Heq, !string_of_list_ascii_app.
    now rewrite string_of_list_ascii_of_string.
  - destruct Htail as [-> | ->]; [now left | now right].
Qed.

Lemma space_not_word c : re.is_space c = true -> re.is_word c = false.
Proof.
  destruct c as [[] [] [] [] [] [] [] []]; vm_compute; congruence.
Qed.

Lemma word_at_spaces l : Forall (fun c => re.is_space c = true) l -> re.word_at l = false.
Proof. destruct 1 as [|c l Hc _]; [reflexivity | now apply space_not_word]. Qed.

(** X22.  A title that is nothing but a prefix word, with or without
    white space after it, loses everything: [unprefixed_title] returns the
    empty string. *)
Theorem unprefixed_title_of_a_prefix (prefix spaces : string) (prefixes : list string) :
  re.literal prefix = true ->
  re.word_at (rev (list_ascii_of_string prefix)) = true ->
  Forall (fun c => re.is_space c = true) (list_ascii_of_string spaces) ->
  unprefixed_title (prefix +:+ spaces) (prefix :: prefixes) = Some "".
Proof.
  intros Hlit Hword Hspaces.
  rewrite (unprefixed_title_cons _ _ _ Hlit). unfold TitleSpec.remainder.
  rewrite list_ascii_of_string_app, strip_prefix_app.
  unfold TitleSpec.whole_word. rewrite Hword, (word_at_spaces _ Hspaces). simpl.
  now rewrite (lstrip_spaces _ Hspaces).
Qed.

(** X23.  A prefix that the title starts with is not removed when no word
    boundary follows it: the last character of the prefix and the next
    character of the title are both word characters, as in a title that
    starts with a longer word, or neither is.  The search goes on with the
    next prefixes. *)
Theorem unprefixed_title_no_boundary (prefix rest : string) (prefixes : list string) :
  re.literal prefix = true ->
  re.word_at (rev (list_ascii_of_string prefix)) = re.word_at (list_ascii_of_string rest) ->
  unprefixed_title (prefix +:+ rest) (prefix :: prefixes)
  = unprefixed_title (prefix +:+ rest) prefixes.
Proof.
  intros Hlit Hword.
  rewrite (unprefixed_title_cons _ _ _ Hlit). unfold TitleSpec.remainder.
  rewrite list_ascii_of_string_app, strip_prefix_app.
  unfold TitleSpec.whole_word. rewrite Hword.
  now destruct (re.word_at (list_ascii_of_string rest)).
Qed.

(** The three of them, on titles. *)
Lemma unprefixed_title_part_of_title_witness :
  exists result before tail,
    unprefixed_title "Le Temps des cerises" ["The"; "Le"] = Some result
    /\ "Le Temps des cerises" = before +:+ result +:+ tail
    /\ (tail = "" \/ tail = TitleSpec.LF).
Proof.
  apply (unprefixed_title_part_of_title "Le Temps des cerises" ["The"; "Le"]).
  repeat constructor.
Defined.

Lemma unprefixed_title_of_a_prefix_witness :
  unprefixed_title "The  " ["The"; "Le"] = Some "".
Proof.
  apply (unprefixed_title_of_a_prefix "The" "  " ["Le"]).
  - reflexivity.
  - reflexivity.
  - repeat constructor.
Defined.

Lemma unprefixed_title_no_boundary_witness :
  unprefixed_title "Theory" ["The"; "Le"] = unprefixed_title "Theory" ["Le"].
Proof.
  apply (unprefixed_title_no_boundary "The" "ory" ["Le"]); reflexivity.
Defined.

(** ** The further properties at work *)

(** A second call of [cached_name] on a new datadir. *)
Lemma cached_name_idempotent_witness :
  let w1 := fst (@cached_name Examples.os "data" "songs/a.sg" Examples.world) in
  @cached_name Examples.os "data" "songs/a.sg" w1
  = (mkWorld Examples.os (w_fs w1)
             (w_events w1
                ++ [EvMakedirs (posixpath.dirname "/srv/book/data/.cache/songs/a.sg")]),
     Ok "/srv/book/data/.cache/songs/a.sg").
Proof.
  cbv zeta.
  apply (@cached_name_idempotent Examples.os (MemFS_laws Examples.cwd)
           "data" "songs/a.sg" Examples.world).
  vm_compute. reflexivity.
Defined.

(** The cache of a song given by an absolute path is the song. *)
Lemma cached_name_absolute_filename_witness :
  @cached_name Examples.os "data" "/srv/book/data/songs/a.sg" Examples.world
  = @cached_name Examples.os "elsewhere" "/srv/book/data/songs/a.sg" Examples.world
  /\ forall w' name,
      @cached_name Examples.os "data" "/srv/book/data/songs/a.sg" Examples.world
      = (w', Ok name) ->
      name = posixpath.normpath "/srv/book/data/songs/a.sg".
Proof.
  apply (@cached_name_absolute_filename Examples.os "data" "elsewhere"
           "/srv/book/data/songs/a.sg" Examples.world).
  reflexivity.
Defined.

(** A song that is not in the datadir. *)
Lemma init_unreadable_song_witness :
  @Song.__init__ Examples.os Examples.libs Examples.format Examples.authors
    "songs/b.sg" Examples.config (Some "data") Examples.world
  = (SongSpec.after Examples.world [EvRead (posixpath.join "data" "songs/b.sg")],
     Raised (OSError errno.ENOENT)).
Proof.
  apply (@init_unreadable_song Examples.os Examples.libs Examples.format Examples.authors
           "songs/b.sg" Examples.config "data" (OSError errno.ENOENT) Examples.world).
  - discriminate.
  - vm_compute. reflexivity.
Defined.

(** A file in the place of the cache directory. *)
Lemma init_cache_directory_failure_witness :
  Examples.construct Examples.config (Some "data") Scenarios.blocked_world
  = (mkWorld Examples.os Scenarios.blocked_disk
             (w_events Scenarios.blocked_world
                ++ SongSpec.lookup_events (os := Examples.os) "data" "songs/a.sg"),
     Raised (OSError errno.EEXIST)).
Proof.
  apply (@init_cache_directory_failure Examples.os Examples.libs Examples.format
           Examples.authors "songs/a.sg" Examples.config "data" Examples.song_bytes
           errno.EEXIST Scenarios.blocked_disk Scenarios.blocked_world).
  - discriminate.
  - vm_compute. reflexivity.
  - vm_compute. reflexivity.
  - vm_compute. reflexivity.
Defined.

(** The song of the examples without a datadir: no hash, and its path is
    the subpath. *)
Lemma init_post_processing_witness :
  Song.attrs Scenarios.plain_song !! "_filehash" = None
  /\ Song.attrs Scenarios.plain_song !! "_version" = Some (PInt 2)
  /\ Song.fullpath Scenarios.plain_song = "data/songs/a.sg".
Proof.
  destruct (@init_post_processing Examples.os Examples.libs Examples.format Examples.authors
              "data/songs/a.sg" Examples.config None Examples.world
              (fst Scenarios.plain_run) Scenarios.plain_song)
    as (parsed & unprefixed & processed & H).
  - left. reflexivity.
  - vm_compute. reflexivity.
  - decompose [and] H. auto.
Defined.

(** The song of the first construction. *)
Lemma init_song_attributes_witness :
  Song.attrs Examples.song1 !! "_version" = Some (PInt Song.CACHE_VERSION)
  /\ SongSpec.complete (Song.attrs Examples.song1).
Proof.
  destruct (@init_song_attributes Examples.os Examples.libs Examples.format Examples.authors
              (MemFS_laws Examples.cwd) "songs/a.sg" Examples.config "data"
              Examples.world Examples.world1 Examples.song1)
    as (content & _ & _ & Hv & Hc & _).
  - discriminate.
  - vm_compute. reflexivity.
  - split; [exact Hv | exact Hc].
Defined.



(** The song class itself, whose parser is not implemented. *)
Lemma init_parse_failure_witness :
  @Song.__init__ Examples.os Examples.libs Examples.abstract_format Examples.authors
    "songs/a.sg" Examples.config (Some "data") Scenarios.cache_dir_world
  = (SongSpec.after Scenarios.cache_dir_world
       (SongSpec.lookup_events (os := Examples.os) "data" "songs/a.sg"
          ++ [EvParse (posixpath.join "data" "songs/a.sg")]),
     Raised NotImplementedError).
Proof.
  apply (@init_parse_failure Examples.os Examples.libs Examples.abstract_format
           Examples.authors (MemFS_laws Examples.cwd) "songs/a.sg" Examples.config "data"
           Examples.song_bytes NotImplementedError Scenarios.cache_dir_world).
  - discriminate.
  - vm_compute. reflexivity.
  - vm_compute. reflexivity.
  - vm_compute. reflexivity.
  - left. reflexivity.
Defined.

(** A song with its titles and nothing else. *)
Lemma write_cache_missing_attribute_witness :
  exists before missing after,
    Song.cached_attributes = before ++ missing :: after
    /\ Forall (fun a => is_Some (({[ "titles" := PList [] ]} : gmap string pyval) !! a)) before
    /\ ({[ "titles" := PList [] ]} : gmap string pyval) !! missing = None
    /\ @Song._write_cache Examples.os Examples.libs "data" {[ "titles" := PList [] ]}
         Examples.world
       = (Examples.world, Raised (AttributeError missing)).
Proof.
  apply (@write_cache_missing_attribute Examples.os Examples.libs "data"
           {[ "titles" := PList [] ]} "languages" Examples.world).
  - discriminate.
  - simpl. tauto.
  - reflexivity.
Defined.

(** The song of the examples, stored once more. *)
Lemma write_cache_stores_cached_attributes_witness :
  let w1 := fst (@Song._write_cache Examples.os Examples.libs "data"
                   (Song.attrs Examples.song1) Examples.world1) in
  SongSpec.complete (Song.attrs Examples.song1)
  /\ exists b,
      @pickle_dumps Examples.libs (PDict (SongSpec.restored (Song.attrs Examples.song1))) = Ok b
      /\ SongSpec.cache_file (os := Examples.os) (w_fs w1) "data" "songs/a.sg" b
      /\ w_events w1
         = w_events Examples.world1
             ++ [ EvMakedirs (SongSpec.cache_dir (os := Examples.os) "data" "songs/a.sg");
                  EvWrite (SongSpec.cache_path (os := Examples.os) "data" "songs/a.sg") ].
Proof.
  cbv zeta.
  apply (@write_cache_stores_cached_attributes Examples.os Examples.libs
           (MemFS_laws Examples.cwd) "data" "songs/a.sg" (Song.attrs Examples.song1)
           Examples.world1).
  - discriminate.
  - vm_compute. reflexivity.
  - vm_compute. reflexivity.
  - vm_compute. reflexivity.
Defined.

(** The same song, with a pickle that fails. *)
Lemma write_cache_dump_failure_witness :
  let run := @Song._write_cache Examples.os Scenarios.failing_libs "data"
               (Song.attrs Examples.song1) Examples.world1 in
  snd run = Raised PickleError
  /\ @path_exists Examples.os (w_fs (fst run))
       (SongSpec.cache_path (os := Examples.os) "data" "songs/a.sg") = true
  /\ w_events (fst run)
     = w_events Examples.world1
         ++ [ EvMakedirs (SongSpec.cache_dir (os := Examples.os) "data" "songs/a.sg");
              EvWrite (SongSpec.cache_path (os := Examples.os) "data" "songs/a.sg") ].
Proof.
  cbv zeta.
  apply (@write_cache_dump_failure Examples.os Scenarios.failing_libs
           (MemFS_laws Examples.cwd) "data" "songs/a.sg" (Song.attrs Examples.song1)
           PickleError Scenarios.truncated_disk Examples.world1).
  - discriminate.
  - vm_compute. reflexivity.
  - exact song1_complete.
  - vm_compute. reflexivity.
  - vm_compute. reflexivity.
  - reflexivity.
Defined.

(** An image given by its absolute path, without its extension. *)
Lemma search_file_absolute_filename_witness :
  @Song.search_file Examples.os Examples.image_disk Examples.song1 "/srv/book/dirB/cover"
    (Some [""; ".png"]) (Some ["dirA"])
  = posixpath.normpath
      <$> List.find (@path_isfile Examples.os Examples.image_disk)
            (map (fun extension => "/srv/book/dirB/cover" +:+ extension) [""; ".png"]).
Proof.
  apply (@search_file_absolute_filename Examples.os Examples.image_disk Examples.song1
           "/srv/book/dirB/cover" (Some [""; ".png"]) (Some ["dirA"])).
  reflexivity.
Defined.

(** A partition that is not there: the name comes back. *)
Lemma search_partition_answer_witness :
  exists path,
    @Song.search_partition Examples.os Examples.disk Examples.song1 "tune" false = Some path.
Proof.
  destruct (@search_partition_answer Examples.os Examples.disk Examples.song1 "tune" eq_refl)
    as [(path & Hpath & _) _].
  exists path. exact Hpath.
Defined.

(** The cover of the [img] directory of the datadir. *)
Lemma search_image_found_witness :
  exists directory extension,
    (directory = posixpath.dirname (Song.fullpath Examples.song1)
     \/ exists datadir,
         In datadir (cfg_datadir (Song.config Examples.song1))
         /\ directory = posixpath.join datadir "img"
         /\ @path_isdir Examples.os Scenarios.cover_disk directory = true)
    /\ In extension [""; ".jpg"; ".png"]
    /\ @path_isfile Examples.os Scenarios.cover_disk
         (posixpath.join directory ("cover" +:+ extension)) = true
    /\ "/srv/book/data/img/cover.jpg"
       = posixpath.abspath (@getcwd Examples.os)
           (posixpath.join directory ("cover" +:+ extension)).
Proof.
  apply (@search_image_found Examples.os Scenarios.cover_disk Examples.song1 "cover"
           "/srv/book/data/img/cover.jpg").
  vm_compute. reflexivity.
Defined.
